(** * Furniture catalog: the selection and render coordinator of [src/app.js]

    The development embeds the state object of [app.js], the handlers that
    mutate it and the render functions that read it, and proves the
    properties the specification states about them.

    Conventions of the embedding:
    - a catalogue entry is a JavaScript object, so the array
      [state.catalogItems] holds object references ([ref]) and a heap maps a
      reference to the record of its fields; [===] on entries compares
      references;
    - a JavaScript [Set] of numbers is its list of elements in insertion
      order, without repetition;
    - [localStorage] is a finite map from keys to strings;
    - the observable effects ([alert], [localStorage] writes) are appended
      to a trace. *)

From Stdlib Require Import ZArith QArith Qround Qabs List String Ascii Lia.
From Stdlib Require Import Decimal DecimalString DecimalZ DecimalFacts.
From stdpp Require Import base list gmap strings.

Local Open Scope string_scope.
Local Open Scope Z_scope.

(** ** JavaScript built-ins used by the program *)

(** An object reference: two entries of the catalogue are [===] exactly
    when their references are equal. *)
Definition ref := nat.

Module JS.

(** *** [Set] of numbers, in insertion order *)

Abbreviation NumSet := (list Z).

Definition Set_has (x : Z) (s : NumSet) : bool := bool_decide (x ∈ s).

(** [Set.prototype.add]: a new element goes last, a present one stays where
    it is. *)
Definition Set_add (x : Z) (s : NumSet) : NumSet :=
  if Set_has x s then s else s ++ [x].

Definition Set_delete (x : Z) (s : NumSet) : NumSet :=
  filter (fun y => y <> x) s.

Definition Set_size (s : NumSet) : Z := Z.of_nat (length s).

Definition Set_clear (s : NumSet) : NumSet := [].

(** [new Set(array)]: the elements are added from left to right. *)
Definition Set_new (a : list Z) : NumSet :=
  fold_left (fun s x => Set_add x s) a [].

(** [Array.from(set)]: the elements in insertion order. *)
Definition Array_from (s : NumSet) : list Z := s.

(** *** Arrays *)

(** [Array.prototype.indexOf] on an array of object references: the first
    position holding the very same reference, [-1] when there is none. *)
Fixpoint Array_indexOf_from (i : Z) (a : list ref) (x : ref) : Z :=
  match a with
  | [] => -1
  | y :: a' => if Nat.eqb y x then i else Array_indexOf_from (i + 1) a' x
  end.

Definition Array_indexOf (a : list ref) (x : ref) : Z :=
  Array_indexOf_from 0 a x.

(** [a[idx]]: [None] stands for [undefined], which is what an index that is
    negative or past the end yields. *)
Definition Array_get {A} (a : list A) (idx : Z) : option A :=
  if idx <? 0 then None else a !! Z.to_nat idx.

Definition Array_reduce {A B} (f : B -> A -> B) (init : B) (a : list A) : B :=
  fold_left f a init.

(** *** Numbers as text *)

(** [Number.prototype.toString] on an integer: plain decimal digits with a
    leading minus sign for negatives (JavaScript switches to exponent
    notation only from 10^21 on, far above any array position). *)
Definition Number_toString (z : Z) : string :=
  NilZero.string_of_int (Z.to_int z).

Definition is_digit (c : ascii) : bool :=
  (48 <=? nat_of_ascii c)%nat && (nat_of_ascii c <=? 57)%nat.

Definition digit_value (c : ascii) : Z := Z.of_nat (nat_of_ascii c - 48).

Definition is_dot (c : ascii) : bool := Ascii.eqb c ".".

(** [s.replace(/[^0-9.]/g, empty)]: every character that is neither a decimal
    digit nor a dot is deleted. *)
Fixpoint replace_non_numeric (s : string) : string :=
  match s with
  | EmptyString => EmptyString
  | String c s' =>
      if is_digit c || is_dot c then String c (replace_non_numeric s')
      else replace_non_numeric s'
  end.

(** The longest run of digits at the head of [s], most significant first,
    and what follows it. *)
Fixpoint span_digits (s : string) : list Z * string :=
  match s with
  | EmptyString => ([], EmptyString)
  | String c s' =>
      if is_digit c
      then let '(ds, rest) := span_digits s' in (digit_value c :: ds, rest)
      else ([], s)
  end.

Definition digits_to_Z (ds : list Z) : Z :=
  fold_left (fun acc d => 10 * acc + d) ds 0.

(** The value of the decimal literal with integer digits [ip] and fraction
    digits [fp]. *)
Definition decimal_value (ip fp : list Z) : Q :=
  Qmake (digits_to_Z (ip ++ fp)) (Z.to_pos (10 ^ Z.of_nat (length fp))).

(** [parseFloat] on a text made of digits and dots, which is all
    [replace_non_numeric] leaves: the longest prefix that is a decimal
    literal (digits, optionally a dot and more digits; or a dot and at least
    one digit), [None] for [NaN] when no prefix is one. The value is the
    exact rational the literal denotes; JavaScript rounds it to the nearest
    double, which changes nothing for integers below 2^53. *)
Definition parseFloat (s : string) : option Q :=
  let '(ip, rest) := span_digits s in
  match rest with
  | String "." rest' =>
      let '(fp, _) := span_digits rest' in
      match ip, fp with
      | [], [] => None
      | _, _ => Some (decimal_value ip fp)
      end
  | _ =>
      match ip with
      | [] => None
      | _ => Some (decimal_value ip [])
      end
  end.

(** Digits of a non-negative integer grouped in threes by commas, working on
    the reversed digit list. *)
Fixpoint group_thousands_rev (ds : list ascii) : list ascii :=
  match ds with
  | a :: b :: c :: ((_ :: _) as rest) =>
      a :: b :: c :: ","%char :: group_thousands_rev rest
  | _ => ds
  end.

Definition group_thousands (s : string) : string :=
  string_of_list_ascii
    (rev (group_thousands_rev (rev (list_ascii_of_string s)))).

Definition two_digits (z : Z) : string :=
  if z <? 10 then "0" ++ Number_toString z else Number_toString z.

(** [new Intl.NumberFormat("en-US", {style: "currency", currency: "USD"})
    .format(x)]: two fraction digits, rounded half away from zero, the
    integer part grouped in threes. *)
Definition format_USD (x : Q) : string :=
  let cents := Qfloor (Qabs x * (100 # 1) + (1 # 2))%Q in
  let body :=
    "$" ++ group_thousands (Number_toString (cents / 100))
        ++ "." ++ two_digits (cents mod 100) in
  if (Qnum x <? 0) && negb (cents =? 0) then "-" ++ body else body.

(** Every character of [s] passes the test [p]. *)
Fixpoint string_forall (p : ascii -> bool) (s : string) : bool :=
  match s with
  | EmptyString => true
  | String c s' => p c && string_forall p s'
  end.

(** The characters [Number_toString] writes. *)
Definition is_number_char (c : ascii) : bool := is_digit c || Ascii.eqb c "-".

(** *** JSON for arrays of integers *)

(** [JSON.stringify] on an array of integers: the elements in decimal,
    separated by commas, between brackets, without white space. *)
Definition JSON_stringify (a : list Z) : string :=
  "[" ++ String.concat "," (Number_toString <$> a) ++ "]".

Definition is_ws (c : ascii) : bool :=
  Ascii.eqb c " " || Ascii.eqb c "009" || Ascii.eqb c "010" || Ascii.eqb c "013".

Fixpoint ltrim (s : string) : string :=
  match s with
  | String c s' => if is_ws c then ltrim s' else s
  | EmptyString => EmptyString
  end.

Fixpoint rtrim (s : string) : string :=
  match s with
  | EmptyString => EmptyString
  | String c s' =>
      match rtrim s' with
      | EmptyString => if is_ws c then EmptyString else String c EmptyString
      | r => String c r
      end
  end.

Definition trim (s : string) : string := rtrim (ltrim s).

(** The text without its last character, when that character is [c]. *)
Fixpoint strip_last (c : ascii) (s : string) : option string :=
  match s with
  | EmptyString => None
  | String d EmptyString => if Ascii.eqb d c then Some EmptyString else None
  | String d s' => option_map (String d) (strip_last c s')
  end.

(** The pieces of [s] between its commas. *)
Fixpoint split_commas (s : string) : list string :=
  match s with
  | EmptyString => [EmptyString]
  | String c s' =>
      if Ascii.eqb c ","
      then EmptyString :: split_commas s'
      else match split_commas s' with
           | t :: ts => String c t :: ts
           | [] => [String c EmptyString]
           end
  end.

(** A JSON number token that denotes an integer written without fraction
    and exponent: an optional minus sign, then [0] or digits that do not
    start with [0]. *)
Definition parse_json_int (tok : string) : option Z :=
  match NilZero.int_of_string tok with
  | Some d =>
      if int_eq_dec (norm d) d then Some (Z.of_int d)
      else if int_eq_dec d (Neg zero) then Some 0
      else None
  | None => None
  end.

Fixpoint parse_elements (toks : list string) : option (list Z) :=
  match toks with
  | [] => Some []
  | t :: ts =>
      match parse_json_int (trim t), parse_elements ts with
      | Some z, Some zs => Some (z :: zs)
      | _, _ => None
      end
  end.

(** [JSON.parse] followed by the [Array.isArray] test of the loader, on
    the fragment of JSON this program writes: [Some a] when the text is an
    array of integers [a]. [None] covers both a [SyntaxError] and a value
    that is not an array, which the loader treats alike (the cart stays
    empty). The model reads what [JSON.parse] reads on the texts the
    program itself writes: arrays of integers below 2^53 in magnitude, in
    plain decimal. Arrays with other elements (fractions, exponents,
    strings, nested values) and larger integers are outside the model; the
    former also give [None] here, where the loader would build a set of
    those values. *)
Definition JSON_parse_array (text : string) : option (list Z) :=
  match trim text with
  | String "[" body =>
      match strip_last "]" body with
      | Some inner =>
          match trim inner with
          | EmptyString => Some []
          | _ => parse_elements (split_commas inner)
          end
      | None => None
      end
  | _ => None
  end.

End JS.

Import JS.

(** ** Data model *)

Record Dimensions := mkDimensions {
  width : string;
  depth_length : string;
  height : string;
}.

(** One block of [data.yaml], with the fields the README lists. *)
Record Item := mkItem {
  product_name : string;
  category : string;
  price : string;
  dimensions : Dimensions;
  main_image_url : string;
  url : string;
}.

(** The objects [jsyaml.load] allocated; they are never written to. *)
Definition Heap := ref -> Item.

Module CONFIG.

Definition DATA_SOURCE : string := "data.yaml".
Definition MAX_COMPARE_ITEMS : Z := 3.
Definition ANIMATION_DELAY_MS : Z := 100.

End CONFIG.

(** The [state] object. *)
Record State := mkState {
  catalogItems : list ref;
  compareIndices : NumSet;
  cartIndices : NumSet;
  activeFilter : string;
}.

(** *** The document *)

(** An [article.card] as [buildCardElement] builds it: the class
    [selected], the entrance delay in milliseconds, the texts interpolated
    from the item, the compare checkbox ([data-index], [checked]) and the
    cart button ([data-index], class [in-cart], label). The attribute
    [data-index] holds a number printed in decimal and the handlers read it
    back with [parseInt(_, 10)]; the model keeps the number. The label is
    kept without the white space the card template puts around it. *)
Record Card := mkCard {
  card_selected : bool;
  card_animationDelay : Z;
  card_href : string;
  card_img_src : string;
  card_title : string;
  card_price : string;
  card_width : string;
  card_depth : string;
  card_height : string;
  cb_data_index : Z;
  cb_checked : bool;
  btn_data_index : Z;
  btn_in_cart : bool;
  btn_textContent : string;
}.

(** [#compare-bar] with [#compare-count] and [#btn-compare]. *)
Record CompareBar := mkCompareBar {
  bar_hidden : bool;
  countLabel : string;
  compareBtn_disabled : bool;
}.

(** [#cart-badge]. *)
Record Badge := mkBadge {
  badge_textContent : string;
  badge_hidden : bool;
}.

(** The comparison matrix of [generateComparisonTableHTML]: one list of
    cells per row, one cell per compared item, left to right. *)
Record Table := mkTable {
  row_feature : list (string * string);
  row_price : list string;
  row_width : list string;
  row_depth : list string;
  row_height : list string;
  row_link : list string;
}.

(** One [div.cart-item] of [generateCartHTML]. *)
Record CartRow := mkCartRow {
  cart_img : string;
  cart_title : string;
  cart_item_price : string;
  cart_link : string;
}.

Inductive CartContent :=
  | CartIsEmpty
  | CartRows (rows : list CartRow).

(** The elements of the page the program reads and writes. The page itself
    ([index.html]) belongs to the repository but not to the program; the
    elements the handlers address without a guard are taken to exist. *)
Record Dom := mkDom {
  gallery : list Card;
  compare_bar : CompareBar;
  cart_badge : Badge;
  compare_modal_hidden : bool;
  compare_table_container : option Table;
  cart_modal_hidden : bool;
  cart_container : CartContent;
  cart_total_price : string;
}.

Inductive Effect :=
  | Alert (message : string)
  | SetItem (key value : string)
  | RemoveItem (key : string).

(** Everything a handler can read or change. *)
Record World := mkWorld {
  state : State;
  heap : Heap;
  dom : Dom;
  localStorage : gmap string string;
  trace : list Effect;
}.

Definition set_state (st : State) (w : World) : World :=
  mkWorld st (heap w) (dom w) (localStorage w) (trace w).

Definition set_dom (d : Dom) (w : World) : World :=
  mkWorld (state w) (heap w) d (localStorage w) (trace w).

Definition set_gallery (g : list Card) (d : Dom) : Dom :=
  mkDom g (compare_bar d) (cart_badge d) (compare_modal_hidden d)
    (compare_table_container d) (cart_modal_hidden d) (cart_container d)
    (cart_total_price d).

Definition set_compareIndices (s : NumSet) (st : State) : State :=
  mkState (catalogItems st) s (cartIndices st) (activeFilter st).

Definition set_cartIndices (s : NumSet) (st : State) : State :=
  mkState (catalogItems st) (compareIndices st) s (activeFilter st).

Definition set_activeFilter (f : string) (st : State) : State :=
  mkState (catalogItems st) (compareIndices st) (cartIndices st) f.

Definition emit (e : Effect) (w : World) : World :=
  mkWorld (state w) (heap w) (dom w) (localStorage w) (trace w ++ [e]).

Definition localStorage_setItem (k v : string) (w : World) : World :=
  mkWorld (state w) (heap w) (dom w) (<[k := v]> (localStorage w))
    (trace w ++ [SetItem k v]).

Definition localStorage_removeItem (k : string) (w : World) : World :=
  mkWorld (state w) (heap w) (dom w) (delete k (localStorage w))
    (trace w ++ [RemoveItem k]).

(** ** Render logic *)

(** The array [visibleData] of [renderGalleryGrid]. *)
Definition visibleData (h : Heap) (st : State) : list ref :=
  if decide (activeFilter st = "all")
  then catalogItems st
  else filter (fun item => category (h item) = activeFilter st)
         (catalogItems st).

Definition cart_label (in_cart : bool) : string :=
  if in_cart then "Remove from Cart" else "Add to Cart".

Definition buildCardElement (h : Heap) (st : State)
    (item : ref) (displayIndex : nat) : Card :=
  let originalIndex := Array_indexOf (catalogItems st) item in
  let isSelected := Set_has originalIndex (compareIndices st) in
  let inCart := Set_has originalIndex (cartIndices st) in
  let it := h item in
  {| card_selected := isSelected;
     card_animationDelay := Z.of_nat displayIndex * CONFIG.ANIMATION_DELAY_MS;
     card_href := url it;
     card_img_src := main_image_url it;
     card_title := product_name it;
     card_price := price it;
     card_width := width (dimensions it);
     card_depth := depth_length (dimensions it);
     card_height := height (dimensions it);
     cb_data_index := originalIndex;
     cb_checked := isSelected;
     btn_data_index := originalIndex;
     btn_in_cart := inCart;
     btn_textContent := cart_label inCart |}.

(** [renderGalleryGrid]: the gallery is replaced by one card per visible
    item, in the order of [visibleData]. *)
Definition renderGalleryGrid (w : World) : World :=
  let cards :=
    imap (fun displayIndex item =>
            buildCardElement (heap w) (state w) item displayIndex)
         (visibleData (heap w) (state w)) in
  set_dom (set_gallery cards (dom w)) w.

(** The identities read back from the rendered gallery, top to bottom. *)
Definition rendered_identities (w : World) : list Z :=
  cb_data_index <$> gallery (dom w).

(** ** Summary controls *)

Definition updateFloatingCompareBar (w : World) : World :=
  let count := Set_size (compareIndices (state w)) in
  let bar := compare_bar (dom w) in
  let bar' :=
    if 0 <? count
    then mkCompareBar false
           (Number_toString count ++ " of "
              ++ Number_toString CONFIG.MAX_COMPARE_ITEMS ++ " selected")
           (count <? 2)
    else mkCompareBar true (countLabel bar) (compareBtn_disabled bar) in
  let d := dom w in
  set_dom (mkDom (gallery d) bar' (cart_badge d) (compare_modal_hidden d)
             (compare_table_container d) (cart_modal_hidden d)
             (cart_container d) (cart_total_price d)) w.

Definition updateCartBadge (w : World) : World :=
  let count := Set_size (cartIndices (state w)) in
  let d := dom w in
  set_dom (mkDom (gallery d) (compare_bar d)
             (mkBadge (Number_toString count) (negb (0 <? count)))
             (compare_modal_hidden d) (compare_table_container d)
             (cart_modal_hidden d) (cart_container d) (cart_total_price d)) w.

(** ** Event handlers *)

Definition set_cb_checked (b : bool) (c : Card) : Card :=
  mkCard (card_selected c) (card_animationDelay c) (card_href c)
    (card_img_src c) (card_title c) (card_price c) (card_width c)
    (card_depth c) (card_height c) (cb_data_index c) b
    (btn_data_index c) (btn_in_cart c) (btn_textContent c).

Definition set_card_selected (b : bool) (c : Card) : Card :=
  mkCard b (card_animationDelay c) (card_href c)
    (card_img_src c) (card_title c) (card_price c) (card_width c)
    (card_depth c) (card_height c) (cb_data_index c) (cb_checked c)
    (btn_data_index c) (btn_in_cart c) (btn_textContent c).

Definition set_btn (in_cart : bool) (label : string) (c : Card) : Card :=
  mkCard (card_selected c) (card_animationDelay c) (card_href c)
    (card_img_src c) (card_title c) (card_price c) (card_width c)
    (card_depth c) (card_height c) (cb_data_index c) (cb_checked c)
    (btn_data_index c) in_cart label.

Definition update_card (k : nat) (f : Card -> Card) (w : World) : World :=
  set_dom (set_gallery (alter f k (gallery (dom w))) (dom w)) w.

Definition capacity_message : string :=
  "You can compare a maximum of "
    ++ Number_toString CONFIG.MAX_COMPARE_ITEMS ++ " items at once.".

(** [toggleComparisonItem(checkboxElement)], where [checkboxElement] is the
    checkbox of the [k]-th card of the gallery. The browser has already
    flipped [checked] when the [change] event reaches the handler. *)
Definition toggleComparisonItem (k : nat) (w : World) : World :=
  match gallery (dom w) !! k with
  | None => w
  | Some card =>
      let itemIndex := cb_data_index card in
      let st := state w in
      if cb_checked card then
        if CONFIG.MAX_COMPARE_ITEMS <=? Set_size (compareIndices st) then
          emit (Alert capacity_message)
            (update_card k (set_cb_checked false) w)
        else
          updateFloatingCompareBar
            (update_card k (set_card_selected true)
               (set_state
                  (set_compareIndices (Set_add itemIndex (compareIndices st)) st)
                  w))
      else
        updateFloatingCompareBar
          (update_card k (set_card_selected false)
             (set_state
                (set_compareIndices (Set_delete itemIndex (compareIndices st)) st)
                w))
  end.

(** The user ticks or unticks the compare checkbox of the [k]-th card: the
    browser flips [checked], then the [change] event bubbles to the gallery
    and [handleGalleryInteractions] calls the handler. *)
Definition user_flips_checkbox (k : nat) (w : World) : World :=
  update_card k (fun c => set_cb_checked (negb (cb_checked c)) c) w.

Definition handleGalleryInteractions (k : nat) (w : World) : World :=
  toggleComparisonItem k (user_flips_checkbox k w).

Definition clearComparisons (w : World) : World :=
  let st := state w in
  let w1 :=
    updateFloatingCompareBar
      (set_state (set_compareIndices (Set_clear (compareIndices st)) st) w) in
  let unmark c := set_cb_checked false (set_card_selected false c) in
  set_dom (set_gallery (unmark <$> gallery (dom w1)) (dom w1)) w1.

(** *** Cart logic *)

(** [toggleCartItem(buttonElement)], where [buttonElement] is the cart
    button of the [k]-th card of the gallery. *)
Definition toggleCartItem (k : nat) (w : World) : World :=
  match gallery (dom w) !! k with
  | None => w
  | Some card =>
      let itemIndex := btn_data_index card in
      let st := state w in
      let w1 :=
        if Set_has itemIndex (cartIndices st) then
          update_card k (set_btn false "Add to Cart")
            (set_state
               (set_cartIndices (Set_delete itemIndex (cartIndices st)) st) w)
        else
          update_card k (set_btn true "Remove from Cart")
            (set_state
               (set_cartIndices (Set_add itemIndex (cartIndices st)) st) w) in
      updateCartBadge
        (localStorage_setItem "catalog-cart"
           (JSON_stringify (Array_from (cartIndices (state w1)))) w1)
  end.

Definition closeCartModal (w : World) : World :=
  let d := dom w in
  set_dom (mkDom (gallery d) (compare_bar d) (cart_badge d)
             (compare_modal_hidden d) (compare_table_container d)
             true (cart_container d) (cart_total_price d)) w.

Definition clearCart (w : World) : World :=
  let st := state w in
  let w1 :=
    updateCartBadge
      (localStorage_removeItem "catalog-cart"
         (set_state (set_cartIndices (Set_clear (cartIndices st)) st) w)) in
  closeCartModal
    (set_dom (set_gallery (set_btn false "Add to Cart" <$> gallery (dom w1))
                (dom w1)) w1).

(** Reading a property of [state.catalogItems[idx]]: a [TypeError] when the
    position holds nothing ([None]). *)
Definition deref_all (h : Heap) (objs : list (option ref)) : option (list Item) :=
  mapM (fun o => h <$> o) objs.

Definition generateCartHTML (items : list Item) : list CartRow :=
  (fun item =>
     mkCartRow (main_image_url item) (product_name item) (price item)
       (url item)) <$> items.

(** The number [calculateCartTotal] formats, as the exact sum of the exact
    values of the literals read. The page adds doubles: the two agree when
    every value and every partial sum is an integer below 2^53, and can
    differ in the last cent otherwise. *)
Definition cart_total (items : list Item) : Q :=
  Array_reduce
    (fun sum item =>
       let cleanPriceStr := replace_non_numeric (price item) in
       let parsedFloat := parseFloat cleanPriceStr in
       (sum + match parsedFloat with None => 0 | Some x => x end)%Q)
    0%Q items.

Definition calculateCartTotal (items : list Item) : string :=
  format_USD (cart_total items).

(** [openCartModal]; [None] when the handler dies of a [TypeError], which
    happens before it has written anything. *)
Definition openCartModal (w : World) : option World :=
  let d := dom w in
  let st := state w in
  if Set_size (cartIndices st) =? 0 then
    Some (set_dom (mkDom (gallery d) (compare_bar d) (cart_badge d)
                     (compare_modal_hidden d) (compare_table_container d)
                     false CartIsEmpty "$0.00") w)
  else
    let selectedObjects :=
      (fun idx => Array_get (catalogItems st) idx)
        <$> Array_from (cartIndices st) in
    items ← deref_all (heap w) selectedObjects;
    Some (set_dom (mkDom (gallery d) (compare_bar d) (cart_badge d)
                     (compare_modal_hidden d) (compare_table_container d)
                     false (CartRows (generateCartHTML items))
                     (calculateCartTotal items)) w).

(** *** Filter *)

(** [handleCategoryFilterClick]: [button] is the [data-filter] of the
    closest [.filter-btn] of the click target, [None] when the click landed
    on the container itself. *)
Definition handleCategoryFilterClick (button : option string) (w : World) : World :=
  match button with
  | None => w
  | Some f =>
      renderGalleryGrid (set_state (set_activeFilter f (state w)) w)
  end.

(** *** Comparison modal *)

Definition generateComparisonTableHTML (itemsToCompare : list Item) : option Table :=
  match itemsToCompare with
  | [] => None
  | _ =>
      Some {| row_feature :=
                (fun i => (main_image_url i, product_name i)) <$> itemsToCompare;
              row_price := price <$> itemsToCompare;
              row_width := (fun i => width (dimensions i)) <$> itemsToCompare;
              row_depth := (fun i => depth_length (dimensions i)) <$> itemsToCompare;
              row_height := (fun i => height (dimensions i)) <$> itemsToCompare;
              row_link := url <$> itemsToCompare |}
  end.

(** The items [openComparisonModal] hands to the table generator. *)
Definition comparison_items (h : Heap) (st : State) : option (list Item) :=
  deref_all h
    ((fun idx => Array_get (catalogItems st) idx)
       <$> Array_from (compareIndices st)).

Definition openComparisonModal (w : World) : option World :=
  let d := dom w in
  selectedObjects ← comparison_items (heap w) (state w);
  Some (set_dom (mkDom (gallery d) (compare_bar d) (cart_badge d)
                   false (generateComparisonTableHTML selectedObjects)
                   (cart_modal_hidden d) (cart_container d)
                   (cart_total_price d)) w).

Definition closeComparisonModal (w : World) : World :=
  let d := dom w in
  set_dom (mkDom (gallery d) (compare_bar d) (cart_badge d)
             true (compare_table_container d)
             (cart_modal_hidden d) (cart_container d) (cart_total_price d)) w.

(** ** Start-up *)

(** What the fetch of [data.yaml] gives: a failure (no response, a status
    that is not ok, or text [jsyaml.load] rejects), or the parsed document,
    [None] when it is empty. *)
Inductive Response :=
  | LoadFailed
  | Parsed (document : option (list ref)).

(** The cart restored by [fetchCatalogData] from the persisted text. *)
Definition restore_cart (savedCart : option string) : NumSet :=
  match savedCart with
  | None => []
  | Some EmptyString => []
  | Some text =>
      match JSON_parse_array text with
      | Some parsed => Set_new parsed
      | None => []
      end
  end.

(** [fetchCatalogData] on the initial state object. *)
Definition fetchCatalogData (r : Response) (h : Heap) (page : Dom)
    (storage : gmap string string) : option World :=
  match r with
  | LoadFailed => None
  | Parsed document =>
      let st := mkState (default [] document) []
                  (restore_cart (storage !! "catalog-cart")) "all" in
      Some (updateCartBadge (mkWorld st h page storage []))
  end.

(** [initializeApplication]; [None] when the load failed, in which case the
    fatal error is displayed and no handler is bound. *)
Definition initializeApplication (r : Response) (h : Heap) (page : Dom)
    (storage : gmap string string) : option World :=
  renderGalleryGrid <$> fetchCatalogData r h page storage.

(** ** Sessions *)

(** The user actions the bound listeners react to. *)
Inductive Event :=
  | ChangeCompareCheckbox (k : nat)
  | ClickCartButton (k : nat)
  | ClickFilter (button : option string)
  | ClickCompare
  | ClickClear
  | ClickCloseModal
  | ClickOpenCart
  | ClickCloseCart
  | ClickClearCart.

(** One event, handled to completion. A handler that throws leaves the
    world as it found it. *)
Definition step (w : World) (e : Event) : World :=
  match e with
  | ChangeCompareCheckbox k => handleGalleryInteractions k w
  | ClickCartButton k => toggleCartItem k w
  | ClickFilter button => handleCategoryFilterClick button w
  | ClickCompare => default w (openComparisonModal w)
  | ClickClear => clearComparisons w
  | ClickCloseModal => closeComparisonModal w
  | ClickOpenCart => default w (openCartModal w)
  | ClickCloseCart => closeCartModal w
  | ClickClearCart => clearCart w
  end.

Definition run (w : World) (es : list Event) : World := fold_left step es w.

(** ** The visible subset as the specification words it *)

(** The positions of the original collection that the filter keeps, in
    increasing order: all of them under ["all"], otherwise those whose item
    has the filter as its category. *)
Definition keeps (h : Heap) (f : string) (item : ref) : bool :=
  bool_decide (f = "all") || bool_decide (category (h item) = f).

Fixpoint kept_positions_from (h : Heap) (f : string) (i : nat) (items : list ref)
    : list nat :=
  match items with
  | [] => []
  | item :: items' =>
      if keeps h f item
      then i :: kept_positions_from h f (S i) items'
      else kept_positions_from h f (S i) items'
  end.

Definition visible_positions (h : Heap) (st : State) : list nat :=
  kept_positions_from h (activeFilter st) 0 (catalogItems st).

(** The ordered sub-sequence of the original collection at those
    positions. *)
Definition spec_visible (h : Heap) (st : State) : list ref :=
  omap (fun i => catalogItems st !! i) (visible_positions h st).

(** ** Invariants *)

(** The markers of a card agree with the two selection sets. *)
Definition card_in_sync (st : State) (c : Card) : Prop :=
  cb_checked c = Set_has (cb_data_index c) (compareIndices st) /\
  card_selected c = Set_has (cb_data_index c) (compareIndices st) /\
  btn_data_index c = cb_data_index c /\
  btn_in_cart c = Set_has (btn_data_index c) (cartIndices st) /\
  btn_textContent c = cart_label (btn_in_cart c).

(** What holds of every world a session reaches when the entries of the
    catalogue are pairwise distinct objects. *)
Record consistent (w : World) : Prop := mkConsistent {
  catalog_distinct : NoDup (catalogItems (state w));
  compare_nodup : NoDup (compareIndices (state w));
  cart_nodup : NoDup (cartIndices (state w));
  compare_bounded :
    Set_size (compareIndices (state w)) <= CONFIG.MAX_COMPARE_ITEMS;
  compare_in_bounds :
    Forall (fun idx => 0 <= idx < Z.of_nat (length (catalogItems (state w))))
           (compareIndices (state w));
  cards_distinct : NoDup (cb_data_index <$> gallery (dom w));
  cards_in_bounds :
    Forall (fun idx => 0 <= idx < Z.of_nat (length (catalogItems (state w))))
           (cb_data_index <$> gallery (dom w));
  cards_in_sync : Forall (card_in_sync (state w)) (gallery (dom w));
}.

(** ** The scenarios of the specification *)

Module Scenario.

Definition dims : Dimensions := mkDimensions "10in" "10in" "10in".

Definition A : Item := mkItem "A" "sofa" "$1000" dims "a.jpg" "https://example.com/a".
Definition B : Item := mkItem "B" "chair" "$500" dims "b.jpg" "https://example.com/b".
Definition C : Item := mkItem "C" "sofa" "$300" dims "c.jpg" "https://example.com/c".

(** Three objects at the references 0, 1 and 2. *)
Definition D : Item := mkItem "D" "chair" "$700" dims "d.jpg" "https://example.com/d".

Definition objects : Heap :=
  fun r => match r with 0%nat => A | 1%nat => B | 2%nat => C | _ => D end.

Definition catalog : list ref := [0; 1; 2]%nat.

Definition page : Dom :=
  mkDom [] (mkCompareBar true EmptyString true) (mkBadge EmptyString true)
    true None true CartIsEmpty EmptyString.

Definition loaded (storage : gmap string string) : World :=
  default (mkWorld (mkState [] [] [] "all") objects page storage [])
    (initializeApplication (Parsed (Some catalog)) objects page storage).

(** [setFilter("sofa"); toggleCompare(0); toggleCompare(2)]: the two sofas
    are the first and the second card on display. *)
Definition compared : World :=
  run (loaded ∅)
    [ClickFilter (Some "sofa"); ChangeCompareCheckbox 0; ChangeCompareCheckbox 1].

(** A catalogue of four items with three of them held for comparison, so
    that the compare set is full. *)
Definition four_items : World :=
  default (mkWorld (mkState [] [] [] "all") objects page ∅ [])
    (initializeApplication (Parsed (Some [0; 1; 2; 3]%nat)) objects page ∅).

Definition fill : list Event :=
  [ChangeCompareCheckbox 0; ChangeCompareCheckbox 1; ChangeCompareCheckbox 2].

Definition full : World := run four_items fill.

(** A catalogue in which one object sits at two positions, as a YAML alias
    produces ([- &a {...}] followed by [- *a]). *)
Definition aliased : World :=
  default (mkWorld (mkState [] [] [] "all") objects page ∅ [])
    (initializeApplication (Parsed (Some [0; 0]%nat)) objects page ∅).

(** Two cart items priced as in the specification's example. *)
Definition priced (p : string) : Item :=
  mkItem "item" "sofa" p dims "i.jpg" "https://example.com/i".

Definition example_cart : list Item :=
  [priced "$1,000.00"; priced "$2,299 - $3,099"].

End Scenario.

(** ** Theme preference *)

(** The [select#theme-select] element: the values of its options and the
    value it shows. *)
Record ThemeSelect := mkThemeSelect {
  select_options : list string;
  select_value : string;
}.

(** What the theme code reads and writes of the page: [body.dataset.theme]
    ([None] while the attribute is not set) and the selector, [None] when
    the page has no such element. *)
Record ThemePage := mkThemePage {
  body_dataset_theme : option string;
  themeSelect : option ThemeSelect;
}.

(** Assigning [select.value]: the option with that value becomes the
    selected one; when no option has it, nothing is selected and the value
    reads as the empty string. *)
Definition select_set_value (v : string) (sel : ThemeSelect) : ThemeSelect :=
  mkThemeSelect (select_options sel)
    (if bool_decide (v ∈ select_options sel) then v else EmptyString).

(** [localStorage.getItem(key) || fallback]: an absent key and an empty
    string both give the fallback. *)
Definition getItem_or (storage : gmap string string) (key fallback : string)
    : string :=
  match storage !! key with
  | Some (String c s) => String c s
  | _ => fallback
  end.

(** [setupThemeSelector], without the listener it binds. *)
Definition setupThemeSelector (storage : gmap string string) (p : ThemePage)
    : ThemePage :=
  match themeSelect p with
  | None => p
  | Some sel =>
      let savedTheme := getItem_or storage "catalog-theme" "dark" in
      mkThemePage (Some savedTheme) (Some (select_set_value savedTheme sel))
  end.

(** The [change] listener of the selector, [newTheme] being
    [event.target.value]. *)
Definition handleThemeChange (newTheme : string) (p : ThemePage) (w : World)
    : ThemePage * World :=
  (mkThemePage (Some newTheme) (themeSelect p),
   localStorage_setItem "catalog-theme" newTheme w).

(** The user picks the option [t] of the selector: the browser shows it and
    fires [change]. Without the element, or without such an option, there
    is nothing to pick. *)
Definition user_picks_theme (t : string) (p : ThemePage) (w : World)
    : ThemePage * World :=
  match themeSelect p with
  | Some sel =>
      if bool_decide (t ∈ select_options sel)
      then handleThemeChange t
             (mkThemePage (body_dataset_theme p)
                (Some (mkThemeSelect (select_options sel) t))) w
      else (p, w)
  | None => (p, w)
  end.

(** ** Further invariants *)

(** An identity that is a position of the catalogue. *)
Definition in_bounds (st : State) (idx : Z) : Prop :=
  0 <= idx < Z.of_nat (length (catalogItems st)).

(** The identities on the cards are positions of the catalogue. *)
Definition cards_within_catalog (w : World) : Prop :=
  Forall (fun c => in_bounds (state w) (cb_data_index c) /\
                   in_bounds (state w) (btn_data_index c))
         (gallery (dom w)).

(** The floating bar shows the compare set: hidden when the set is empty,
    otherwise visible with the count in its label and the compare button
    disabled below two identities. *)
Definition compare_bar_reflects (w : World) : Prop :=
  let count := Set_size (compareIndices (state w)) in
  if decide (count = 0)
  then bar_hidden (compare_bar (dom w)) = true
  else compare_bar (dom w)
       = mkCompareBar false
           (Number_toString count ++ " of 3 selected")
           (count <? 2).

(** The badge shows the size of the cart, and hides when it is empty. *)
Definition cart_badge_reflects (w : World) : Prop :=
  cart_badge (dom w)
  = mkBadge (Number_toString (Set_size (cartIndices (state w))))
      (bool_decide (cartIndices (state w) = [])).

(** The persisted record is the one a new session would restore the
    current cart from. *)
Definition cart_is_persisted (w : World) : Prop :=
  restore_cart (localStorage w !! "catalog-cart") = cartIndices (state w).

(** A storage effect that concerns the cart record, or no storage effect
    at all. *)
Definition effect_on_cart_key (eff : Effect) : Prop :=
  match eff with
  | Alert _ => True
  | SetItem key _ => key = "catalog-cart"
  | RemoveItem key => key = "catalog-cart"
  end.

(** The button the last filter click of a sequence landed on, if any. *)
Definition last_button (buttons : list (option string)) : option string :=
  last (omap id buttons).

(** A catalogue of two objects that have the same content (the references
    3 and 4 both hold item D). *)
Definition twins : World :=
  default (mkWorld (mkState [] [] [] "all") Scenario.objects Scenario.page ∅ [])
    (initializeApplication (Parsed (Some [3; 4]%nat)) Scenario.objects
       Scenario.page ∅).

(** An integer that JavaScript holds exactly and prints in plain decimal. *)
Definition safe_integer (z : Z) : Prop := - 2 ^ 53 < z < 2 ^ 53.

(** A cart record as this program leaves it: none, or the text
    [toggleCartItem] writes for some array of identities. On such records
    the model of the loader reads what [JSON.parse] reads. *)
Definition program_written (saved : option string) : Prop :=
  saved = None \/
  exists a : list Z, Forall safe_integer a /\ saved = Some (JSON_stringify a).

(** A session whose cart was restored from a record that names a position
    the catalogue does not have. *)
Definition stale_cart_session : World :=
  Scenario.loaded {["catalog-cart" := "[7]"]}.

Definition example_theme_page : ThemePage :=
  mkThemePage None (Some (mkThemeSelect ["dark"; "light"; "neon"] "dark")).

(** * Properties *)

(** ** Sets *)

Section SetFacts.

Implicit Types (x y : Z) (s : NumSet).

Lemma Set_has_true x s : Set_has x s = true <-> x ∈ s.
Proof. unfold Set_has. apply bool_decide_eq_true. Qed.

Lemma Set_has_false x s : Set_has x s = false <-> x ∉ s.
Proof. unfold Set_has. apply bool_decide_eq_false. Qed.

Lemma elem_of_Set_add x y s : y ∈ Set_add x s <-> y = x \/ y ∈ s.
Proof.
  unfold Set_add. destruct (Set_has x s) eqn:E.
  - apply Set_has_true in E. split; [now right | intros [-> | H]; assumption].
  - rewrite elem_of_app, list_elem_of_singleton. tauto.
Qed.

Lemma elem_of_Set_delete x y s : y ∈ Set_delete x s <-> y <> x /\ y ∈ s.
Proof. unfold Set_delete. apply (list_elem_of_filter (fun z => z <> x)). Qed.

Lemma Set_has_add x y s :
  Set_has y (Set_add x s) = (y =? x) || Set_has y s.
Proof.
  apply eq_true_iff_eq.
  rewrite orb_true_iff, Z.eqb_eq, !Set_has_true. apply elem_of_Set_add.
Qed.

Lemma Set_has_delete x y s :
  Set_has y (Set_delete x s) = negb (y =? x) && Set_has y s.
Proof.
  apply eq_true_iff_eq.
  rewrite andb_true_iff, negb_true_iff, Z.eqb_neq, !Set_has_true.
  apply elem_of_Set_delete.
Qed.

Lemma Set_add_NoDup x s : NoDup s -> NoDup (Set_add x s).
Proof.
  intros Hs. unfold Set_add. destruct (Set_has x s) eqn:E; [assumption |].
  apply Set_has_false in E.
  apply NoDup_app. split; [assumption |]. split; [| apply NoDup_singleton].
  intros y Hy. rewrite list_elem_of_singleton. intros ->. contradiction.
Qed.

Lemma Set_delete_NoDup x s : NoDup s -> NoDup (Set_delete x s).
Proof. apply NoDup_filter. Qed.

Lemma Set_delete_absent x s : x ∉ s -> Set_delete x s = s.
Proof.
  intros Hx. unfold Set_delete. induction s as [| y s IH]; [reflexivity |].
  apply not_elem_of_cons in Hx as [Hne Hx].
  rewrite filter_cons_True by congruence. f_equal. now apply IH.
Qed.



Lemma Set_size_add_le x s : Set_size (Set_add x s) <= Set_size s + 1.
Proof.
  unfold Set_size, Set_add. destruct (Set_has x s); [lia |].
  rewrite length_app. simpl. lia.
Qed.

Lemma Set_size_delete_le x s : Set_size (Set_delete x s) <= Set_size s.
Proof.
  unfold Set_size, Set_delete.
  pose proof (length_filter (fun y => y <> x) s). lia.
Qed.


(** Building a set from an array that has no repetition keeps the array. *)
Lemma Set_new_app_NoDup (a acc : list Z) :
  NoDup (acc ++ a)%list ->
  fold_left (fun s x => Set_add x s) a acc = (acc ++ a)%list.
Proof.
  revert acc. induction a as [| x a IH]; intros acc Hnd; simpl.
  - symmetry. apply app_nil_r.
  - assert (Hx : x ∉ acc).
    { apply NoDup_app in Hnd as (_ & Hdisj & _). intros Hin.
      apply (Hdisj x Hin). left. }
    unfold Set_add at 2. rewrite (proj2 (Set_has_false _ _) Hx).
    rewrite IH; rewrite <- app_assoc; [reflexivity | exact Hnd].
Qed.

Lemma Set_new_NoDup (a : list Z) : NoDup a -> Set_new a = a.
Proof. intros Ha. apply (Set_new_app_NoDup a []). exact Ha. Qed.

End SetFacts.

(** ** What each handler does to the state object *)

Section StateOfHandlers.

Implicit Types (w : World) (k : nat).

Lemma state_renderGalleryGrid w : state (renderGalleryGrid w) = state w.
Proof. reflexivity. Qed.

Lemma state_user_flips_checkbox k w : state (user_flips_checkbox k w) = state w.
Proof. reflexivity. Qed.

Lemma gallery_user_flips_checkbox k w :
  gallery (dom (user_flips_checkbox k w))
  = alter (fun c => set_cb_checked (negb (cb_checked c)) c) k (gallery (dom w)).
Proof. reflexivity. Qed.

(** The state after [toggleComparisonItem]: only the compare set can
    change, by one insertion when the box is ticked and there is room, by
    one deletion when the box is unticked. *)
Lemma state_toggleComparisonItem k w :
  state (toggleComparisonItem k w) =
  match gallery (dom w) !! k with
  | None => state w
  | Some card =>
      if cb_checked card then
        if CONFIG.MAX_COMPARE_ITEMS <=? Set_size (compareIndices (state w))
        then state w
        else set_compareIndices
               (Set_add (cb_data_index card) (compareIndices (state w))) (state w)
      else set_compareIndices
             (Set_delete (cb_data_index card) (compareIndices (state w))) (state w)
  end.
Proof.
  unfold toggleComparisonItem.
  destruct (gallery (dom w) !! k) as [card |]; [| reflexivity].
  destruct (cb_checked card); [| reflexivity].
  destruct (CONFIG.MAX_COMPARE_ITEMS <=? _); reflexivity.
Qed.

Lemma state_clearComparisons w :
  state (clearComparisons w) = set_compareIndices [] (state w).
Proof. reflexivity. Qed.

Lemma state_toggleCartItem k w :
  state (toggleCartItem k w) =
  match gallery (dom w) !! k with
  | None => state w
  | Some card =>
      let idx := btn_data_index card in
      if Set_has idx (cartIndices (state w))
      then set_cartIndices (Set_delete idx (cartIndices (state w))) (state w)
      else set_cartIndices (Set_add idx (cartIndices (state w))) (state w)
  end.
Proof.
  unfold toggleCartItem.
  destruct (gallery (dom w) !! k) as [card |]; [| reflexivity].
  simpl. destruct (Set_has _ _); reflexivity.
Qed.

Lemma state_clearCart w : state (clearCart w) = set_cartIndices [] (state w).
Proof. reflexivity. Qed.

Lemma state_handleCategoryFilterClick button w :
  state (handleCategoryFilterClick button w) =
  match button with
  | None => state w
  | Some f => set_activeFilter f (state w)
  end.
Proof. destruct button; reflexivity. Qed.

Lemma state_openComparisonModal w :
  state (default w (openComparisonModal w)) = state w.
Proof.
  unfold openComparisonModal.
  destruct (comparison_items (heap w) (state w)); reflexivity.
Qed.

Lemma state_openCartModal w : state (default w (openCartModal w)) = state w.
Proof.
  unfold openCartModal. destruct (Set_size _ =? 0); [reflexivity |].
  destruct (deref_all _ _); reflexivity.
Qed.

Lemma state_closeComparisonModal w : state (closeComparisonModal w) = state w.
Proof. reflexivity. Qed.

Lemma state_closeCartModal w : state (closeCartModal w) = state w.
Proof. reflexivity. Qed.

(** No handler replaces the catalogue. *)
Lemma catalogItems_step w e :
  catalogItems (state (step w e)) = catalogItems (state w).
Proof.
  destruct e; simpl.
  - unfold handleGalleryInteractions. rewrite state_toggleComparisonItem.
    rewrite state_user_flips_checkbox.
    destruct (gallery _ !! k) as [card |]; [| reflexivity].
    destruct (cb_checked card); [| reflexivity].
    destruct (CONFIG.MAX_COMPARE_ITEMS <=? _); reflexivity.
  - rewrite state_toggleCartItem.
    destruct (gallery _ !! k) as [card |]; [| reflexivity].
    simpl. destruct (Set_has _ _); reflexivity.
  - rewrite state_handleCategoryFilterClick. destruct button; reflexivity.
  - now rewrite state_openComparisonModal.
  - reflexivity.
  - reflexivity.
  - now rewrite state_openCartModal.
  - reflexivity.
  - reflexivity.
Qed.

Lemma run_app w es1 es2 : run w (es1 ++ es2)%list = run (run w es1) es2.
Proof. unfold run. apply fold_left_app. Qed.

Lemma run_cons w e es : run w (e :: es) = run (step w e) es.
Proof. reflexivity. Qed.

Lemma catalogItems_run w es :
  catalogItems (state (run w es)) = catalogItems (state w).
Proof.
  revert w. induction es as [| e es IH]; intros w; [reflexivity |].
  rewrite run_cons, IH. apply catalogItems_step.
Qed.

(** The compare set after any single event. *)
Lemma compare_size_step w e :
  Set_size (compareIndices (state w)) <= CONFIG.MAX_COMPARE_ITEMS ->
  Set_size (compareIndices (state (step w e))) <= CONFIG.MAX_COMPARE_ITEMS.
Proof.
  intros Hle. destruct e; simpl.
  - unfold handleGalleryInteractions. rewrite state_toggleComparisonItem.
    rewrite state_user_flips_checkbox.
    destruct (gallery _ !! k) as [card |]; [| assumption].
    destruct (cb_checked card).
    + destruct (Z.leb_spec CONFIG.MAX_COMPARE_ITEMS
                  (Set_size (compareIndices (state w)))) as [Hfull | Hroom];
        [assumption |].
      simpl.
      pose proof (Set_size_add_le (cb_data_index card)
                    (compareIndices (state w))). lia.
    + simpl.
      pose proof (Set_size_delete_le (cb_data_index card)
                    (compareIndices (state w))). lia.
  - rewrite state_toggleCartItem.
    destruct (gallery _ !! k) as [card |]; [| assumption].
    simpl. destruct (Set_has _ _); assumption.
  - rewrite state_handleCategoryFilterClick. destruct button; assumption.
  - now rewrite state_openComparisonModal.
  - unfold CONFIG.MAX_COMPARE_ITEMS. unfold Set_size. simpl. lia.
  - assumption.
  - now rewrite state_openCartModal.
  - assumption.
  - assumption.
Qed.

Lemma compare_size_run w es :
  Set_size (compareIndices (state w)) <= CONFIG.MAX_COMPARE_ITEMS ->
  Set_size (compareIndices (state (run w es))) <= CONFIG.MAX_COMPARE_ITEMS.
Proof.
  revert w. induction es as [| e es IH]; intros w Hle; [assumption |].
  rewrite run_cons. apply IH. now apply compare_size_step.
Qed.

End StateOfHandlers.

(** ** JSON: what is written is read back *)

Section JsonFacts.

Implicit Types (s t : string) (c : ascii) (z : Z).

Lemma string_forall_app p s t :
  string_forall p (s ++ t) = string_forall p s && string_forall p t.
Proof.
  induction s as [| c s IH]; simpl; [reflexivity |].
  rewrite IH. apply andb_assoc.
Qed.

Lemma string_forall_impl (p q : ascii -> bool) s :
  (forall c, p c = true -> q c = true) ->
  string_forall p s = true -> string_forall q s = true.
Proof.
  intros Hpq. induction s as [| c s IH]; simpl; [reflexivity |].
  rewrite !andb_true_iff. intros [Hc Hs]. split; auto.
Qed.

Lemma digits_of_uint (d : uint) :
  string_forall is_digit (NilEmpty.string_of_uint d) = true.
Proof. induction d; simpl; auto. Qed.

Lemma Number_toString_chars z :
  string_forall is_number_char (Number_toString z) = true.
Proof.
  assert (Hu : forall d, string_forall is_number_char (NilZero.string_of_uint d) = true).
  { intros d. apply (string_forall_impl is_digit).
    - intros c Hc. unfold is_number_char. now rewrite Hc.
    - destruct d; try apply digits_of_uint. reflexivity. }
  unfold Number_toString. destruct (Z.to_int z) as [d | d]; simpl.
  - apply Hu.
  - apply Hu.
Qed.

Lemma number_char_not_ws c : is_number_char c = true -> is_ws c = false.
Proof.
  destruct c as [[|] [|] [|] [|] [|] [|] [|] [|]]; vm_compute; congruence.
Qed.

Lemma number_char_not_comma c : is_number_char c = true -> Ascii.eqb c "," = false.
Proof.
  destruct c as [[|] [|] [|] [|] [|] [|] [|] [|]]; vm_compute; congruence.
Qed.

Lemma Number_toString_nonempty z : Number_toString z <> EmptyString.
Proof.
  unfold Number_toString. destruct (Z.to_int z) as [d | d]; simpl.
  - destruct d; discriminate.
  - discriminate.
Qed.

(** Reading back one number. *)
Lemma parse_json_int_Number_toString z :
  parse_json_int (Number_toString z) = Some z.
Proof.
  unfold parse_json_int, Number_toString.
  assert (Hnorm : norm (Z.to_int z) = Z.to_int z).
  { rewrite <- DecimalZ.to_of. now rewrite DecimalZ.of_to. }
  assert (Hpos : Z.to_int z <> Pos Nil /\ Z.to_int z <> Neg Nil).
  { rewrite <- Hnorm. destruct (Z.to_int z) as [d | d]; simpl.
    - split; [| discriminate]. unfold unorm.
      destruct (nzhead d); discriminate.
    - destruct (nzhead d); split; discriminate. }
  rewrite NilZero.isi by tauto.
  destruct (int_eq_dec (norm (Z.to_int z)) (Z.to_int z)) as [_ | Hne];
    [| contradiction].
  f_equal. apply DecimalZ.of_to.
Qed.

Lemma ltrim_no_ws s :
  string_forall (fun c => negb (is_ws c)) s = true -> ltrim s = s.
Proof.
  destruct s as [| c s]; simpl; [reflexivity |].
  rewrite andb_true_iff, negb_true_iff. now intros [-> _].
Qed.

Lemma rtrim_no_ws s :
  string_forall (fun c => negb (is_ws c)) s = true -> rtrim s = s.
Proof.
  induction s as [| c s IH]; simpl; [reflexivity |].
  rewrite andb_true_iff, negb_true_iff. intros [Hc Hs].
  rewrite (IH Hs), Hc. now destruct s.
Qed.

Lemma trim_no_ws s :
  string_forall (fun c => negb (is_ws c)) s = true -> trim s = s.
Proof.
  intros H. unfold trim. rewrite (ltrim_no_ws s H). now apply rtrim_no_ws.
Qed.

Lemma strip_last_app c s : strip_last c (s ++ String c EmptyString) = Some s.
Proof.
  induction s as [| d s IH]; simpl.
  - now rewrite Ascii.eqb_refl.
  - rewrite IH. now destruct s.
Qed.

Lemma split_commas_no_comma s :
  string_forall (fun c => negb (Ascii.eqb c ",")) s = true ->
  split_commas s = [s].
Proof.
  induction s as [| c s IH]; simpl; [reflexivity |].
  rewrite andb_true_iff, negb_true_iff. intros [-> Hs]. now rewrite (IH Hs).
Qed.

Lemma split_commas_app s t :
  string_forall (fun c => negb (Ascii.eqb c ",")) s = true ->
  split_commas (s ++ String "," t) = s :: split_commas t.
Proof.
  induction s as [| c s IH]; simpl; [reflexivity |].
  rewrite andb_true_iff, negb_true_iff. intros [-> Hs]. now rewrite (IH Hs).
Qed.

Lemma split_commas_concat (toks : list string) :
  toks <> [] ->
  Forall (fun t => string_forall (fun c => negb (Ascii.eqb c ",")) t = true) toks ->
  split_commas (String.concat "," toks) = toks.
Proof.
  intros Hne Hall. induction Hall as [| t toks Ht Hall IH]; [contradiction |].
  destruct toks as [| t' toks].
  - simpl. now apply split_commas_no_comma.
  - change (String.concat "," (t :: t' :: toks))
      with (t ++ String "," (String.concat "," (t' :: toks))).
    rewrite (split_commas_app _ _ Ht). f_equal. now apply IH.
Qed.

Lemma concat_chars p (toks : list string) :
  p ","%char = true ->
  Forall (fun t => string_forall p t = true) toks ->
  string_forall p (String.concat "," toks) = true.
Proof.
  intros Hp Hall. induction Hall as [| t toks Ht Hall IH]; [reflexivity |].
  destruct toks as [| t' toks]; [exact Ht |].
  change (String.concat "," (t :: t' :: toks))
    with (t ++ String "," (String.concat "," (t' :: toks))).
  rewrite string_forall_app, Ht. cbn [andb string_forall].
  rewrite Hp. exact IH.
Qed.

Lemma parse_elements_Number_toString (a : list Z) :
  parse_elements (Number_toString <$> a) = Some a.
Proof.
  induction a as [| z a IH]; [reflexivity |].
  rewrite fmap_cons. cbn [parse_elements]. rewrite trim_no_ws.
  - now rewrite parse_json_int_Number_toString, IH.
  - apply (string_forall_impl is_number_char); [| apply Number_toString_chars].
    intros c Hc. now rewrite (number_char_not_ws c Hc).
Qed.

(** The array the program writes is the array the loader reads. *)
Lemma JSON_parse_stringify (a : list Z) :
  JSON_parse_array (JSON_stringify a) = Some a.
Proof.
  unfold JSON_parse_array, JSON_stringify.
  set (inner := String.concat "," (Number_toString <$> a)).
  assert (Htoks : Forall (fun t => string_forall is_number_char t = true)
                    (Number_toString <$> a)).
  { apply Forall_fmap, Forall_true. intros z. apply Number_toString_chars. }
  assert (Hinner : string_forall (fun c => negb (is_ws c)) inner = true).
  { apply concat_chars; [reflexivity |].
    eapply Forall_impl; [exact Htoks |]. intros t Ht. simpl.
    apply (string_forall_impl is_number_char); [| exact Ht].
    intros c Hc. now rewrite (number_char_not_ws c Hc). }
  assert (Hwhole : string_forall (fun c => negb (is_ws c))
                     ("[" ++ inner ++ "]") = true).
  { change ("[" ++ inner ++ "]") with (String "[" (inner ++ "]")).
    simpl. now rewrite string_forall_app, Hinner. }
  rewrite (trim_no_ws _ Hwhole).
  change ("[" ++ inner ++ "]") with (String "[" (inner ++ "]")).
  cbv iota beta. rewrite strip_last_app, (trim_no_ws _ Hinner).
  destruct a as [| z a]; [reflexivity |].
  assert (Hne : inner <> EmptyString).
  { unfold inner. rewrite fmap_cons.
    pose proof (Number_toString_nonempty z) as Hz. revert Hz.
    generalize (Number_toString z) as tz. intros tz Hz.
    destruct tz; [contradiction |].
    destruct (Number_toString <$> a); discriminate. }
  destruct inner as [| c inner'] eqn:E; [contradiction |].
  rewrite <- E. unfold inner. rewrite split_commas_concat.
  - apply parse_elements_Number_toString.
  - discriminate.
  - eapply Forall_impl; [exact Htoks |]. intros t Ht. simpl.
    apply (string_forall_impl is_number_char); [| exact Ht].
    intros c' Hc. now rewrite (number_char_not_comma c' Hc).
Qed.

Lemma JSON_stringify_nonempty (a : list Z) : JSON_stringify a <> EmptyString.
Proof. discriminate. Qed.

(** The loader restores the cart that was written. *)
Lemma restore_cart_stringify (cart : NumSet) :
  NoDup cart -> restore_cart (Some (JSON_stringify cart)) = cart.
Proof.
  intros Hnd. unfold restore_cart.
  rewrite JSON_parse_stringify.
  change (JSON_stringify cart)
    with (String "[" (String.concat "," (Number_toString <$> cart) ++ "]")).
  cbv iota beta. now apply Set_new_NoDup.
Qed.

End JsonFacts.

(** ** The compare checkbox *)

Section CompareToggle.

Implicit Types (w : World) (k : nat) (card : Card).

Lemma lookup_user_flips k w card :
  gallery (dom w) !! k = Some card ->
  gallery (dom (user_flips_checkbox k w)) !! k
  = Some (set_cb_checked (negb (cb_checked card)) card).
Proof.
  intros Hk. rewrite gallery_user_flips_checkbox, list_lookup_alter_eq, Hk.
  reflexivity.
Qed.

(** Unticking a box deletes its identity. *)
Lemma untick_spec k w card :
  gallery (dom w) !! k = Some card ->
  cb_checked card = true ->
  let w' := handleGalleryInteractions k w in
  state w'
  = set_compareIndices
      (Set_delete (cb_data_index card) (compareIndices (state w))) (state w) /\
  gallery (dom w') !! k
  = Some (set_card_selected false (set_cb_checked false card)) /\
  trace w' = trace w.
Proof.
  intros Hk Hc. unfold handleGalleryInteractions, toggleComparisonItem.
  rewrite (lookup_user_flips k w card Hk). cbn [cb_checked set_cb_checked].
  rewrite Hc. cbn [negb]. repeat split.
  cbn. rewrite !list_lookup_alter_eq, Hk. cbn. now rewrite Hc.
Qed.

(** Ticking a box while there is room inserts its identity. *)
Lemma tick_spec k w card :
  gallery (dom w) !! k = Some card ->
  cb_checked card = false ->
  Set_size (compareIndices (state w)) < CONFIG.MAX_COMPARE_ITEMS ->
  let w' := handleGalleryInteractions k w in
  state w'
  = set_compareIndices
      (Set_add (cb_data_index card) (compareIndices (state w))) (state w) /\
  gallery (dom w') !! k
  = Some (set_card_selected true (set_cb_checked true card)) /\
  trace w' = trace w.
Proof.
  intros Hk Hc Hroom. unfold handleGalleryInteractions, toggleComparisonItem.
  rewrite (lookup_user_flips k w card Hk). cbn [cb_checked set_cb_checked].
  rewrite Hc. cbn [negb]. rewrite state_user_flips_checkbox.
  rewrite (proj2 (Z.leb_gt _ _) Hroom). repeat split.
  cbn. rewrite !list_lookup_alter_eq, Hk. cbn. now rewrite Hc.
Qed.

(** Ticking a box while the set is full is refused: the box is unticked
    again, the user is told, and the state is left alone. *)
Lemma tick_refused_spec k w card :
  gallery (dom w) !! k = Some card ->
  cb_checked card = false ->
  CONFIG.MAX_COMPARE_ITEMS <= Set_size (compareIndices (state w)) ->
  let w' := handleGalleryInteractions k w in
  state w' = state w /\
  gallery (dom w') !! k = Some card /\
  trace w' = (trace w ++ [Alert capacity_message])%list.
Proof.
  intros Hk Hc Hfull. unfold handleGalleryInteractions, toggleComparisonItem.
  rewrite (lookup_user_flips k w card Hk). cbn [cb_checked set_cb_checked].
  rewrite Hc. cbn [negb]. rewrite state_user_flips_checkbox.
  rewrite (proj2 (Z.leb_le _ _) Hfull). repeat split.
  cbn. rewrite !list_lookup_alter_eq, Hk.
  destruct card; cbn in *. now subst.
Qed.

End CompareToggle.

Section CompareClaims.

Implicit Types (w : World) (k : nat) (card : Card).

(** C2. Whatever the user does after a start with an empty compare set,
    the compare set never holds more than [MAX_COMPARE_ITEMS] = 3
    identities; and when it is full, acting on the checkbox of a card whose
    identity is not in it leaves the set exactly as it was. When that
    checkbox was unticked, as it is for an identity that is not selected,
    the tick is undone and the capacity warning is raised. *)
Theorem compare_set_capacity (w0 : World) (es : list Event) :
  compareIndices (state w0) = [] ->
  let w := run w0 es in
  Set_size (compareIndices (state w)) <= CONFIG.MAX_COMPARE_ITEMS /\
  (forall k card,
     gallery (dom w) !! k = Some card ->
     cb_data_index card ∉ compareIndices (state w) ->
     CONFIG.MAX_COMPARE_ITEMS <= Set_size (compareIndices (state w)) ->
     let w' := handleGalleryInteractions k w in
     compareIndices (state w') = compareIndices (state w) /\
     (cb_checked card = false ->
      gallery (dom w') !! k = Some card /\
      trace w' = (trace w ++ [Alert capacity_message])%list)).
Proof.
  intros Hempty w. split.
  - apply compare_size_run. rewrite Hempty. vm_compute. discriminate.
  - intros k card Hk Habsent Hfull w'. subst w'.
    destruct (cb_checked card) eqn:Hc.
    + destruct (untick_spec k w card Hk Hc) as (Hst & _ & _).
      rewrite Hst. cbn. split; [now apply Set_delete_absent | discriminate].
    + destruct (tick_refused_spec k w card Hk Hc Hfull) as (Hst & Hg & Htr).
      rewrite Hst. split; [reflexivity |]. intros _. now split.
Qed.

Lemma compare_set_capacity_witness :
  compareIndices (state Scenario.four_items) = [] /\
  (let w := run Scenario.four_items Scenario.fill in
   Set_size (compareIndices (state w)) <= CONFIG.MAX_COMPARE_ITEMS /\
   (forall k card,
      gallery (dom w) !! k = Some card ->
      cb_data_index card ∉ compareIndices (state w) ->
      CONFIG.MAX_COMPARE_ITEMS <= Set_size (compareIndices (state w)) ->
      let w' := handleGalleryInteractions k w in
      compareIndices (state w') = compareIndices (state w) /\
      (cb_checked card = false ->
       gallery (dom w') !! k = Some card /\
       trace w' = (trace w ++ [Alert capacity_message])%list))).
Proof.
  split.
  - vm_compute. reflexivity.
  - apply (compare_set_capacity Scenario.four_items Scenario.fill).
    vm_compute. reflexivity.
Defined.

(** The fourth tick on a full compare set, run on the model. *)
Example fourth_tick_is_refused :
  compareIndices (state Scenario.full) = [0; 1; 2] /\
  compareIndices (state (handleGalleryInteractions 3 Scenario.full)) = [0; 1; 2] /\
  trace (handleGalleryInteractions 3 Scenario.full)
  = [Alert "You can compare a maximum of 3 items at once."] /\
  cb_checked <$> gallery (dom (handleGalleryInteractions 3 Scenario.full))
  = [true; true; true; false].
Proof. vm_compute. repeat split. Qed.





(** A selected identity that is toggled twice goes to the end of the
    insertion order. *)
Example toggle_twice_moves_to_the_end :
  compareIndices (state Scenario.compared) = [0; 2] /\
  compareIndices
    (state (handleGalleryInteractions 0
              (handleGalleryInteractions 0 Scenario.compared))) = [2; 0].
Proof. vm_compute. split; reflexivity. Qed.

End CompareClaims.

(** ** The cart button and the persisted cart *)

Section CartClaims.

Implicit Types (w : World) (k : nat) (card : Card).

(** One click on the cart button of the [k]-th card. *)
Lemma toggleCartItem_spec k w card :
  gallery (dom w) !! k = Some card ->
  let idx := btn_data_index card in
  let cart := cartIndices (state w) in
  let cart' := if Set_has idx cart then Set_delete idx cart else Set_add idx cart in
  let w' := toggleCartItem k w in
  state w' = set_cartIndices cart' (state w) /\
  (exists card', gallery (dom w') !! k = Some card' /\
                 btn_data_index card' = idx) /\
  localStorage w' = <["catalog-cart" := JSON_stringify cart']> (localStorage w) /\
  trace w' = (trace w ++ [SetItem "catalog-cart" (JSON_stringify cart')])%list.
Proof.
  intros Hk. cbv zeta. unfold toggleCartItem. rewrite Hk.
  destruct (Set_has (btn_data_index card) (cartIndices (state w))) eqn:Hin;
    cbn; rewrite ?Hin; (split; [reflexivity |]); (split; [| split; reflexivity]);
    rewrite list_lookup_alter_eq, Hk; cbn; eauto.
Qed.



(** The two writes of the scenario, as text. *)
Example toggle_cart_twice_writes :
  trace (toggleCartItem 1 (toggleCartItem 1 (Scenario.loaded ∅)))
  = [SetItem "catalog-cart" "[1]"; SetItem "catalog-cart" "[]"].
Proof. vm_compute. reflexivity. Qed.

(** C8. The list a cart click persists is all the next session needs: a
    load that finds it under [catalog-cart] starts with exactly the cart
    the click left, whatever the catalogue, the page and the other keys
    are. *)
Theorem cart_persistence_roundtrip (w : World) (k : nat) (card : Card)
    (document : option (list ref)) (h : Heap) (page : Dom)
    (storage : gmap string string) :
  NoDup (cartIndices (state w)) ->
  gallery (dom w) !! k = Some card ->
  let w1 := toggleCartItem k w in
  storage !! "catalog-cart" = localStorage w1 !! "catalog-cart" ->
  localStorage w1 !! "catalog-cart"
  = Some (JSON_stringify (cartIndices (state w1))) /\
  exists w2,
    initializeApplication (Parsed document) h page storage = Some w2 /\
    cartIndices (state w2) = cartIndices (state w1).
Proof.
  intros Hnd Hk w1 Hsame.
  destruct (toggleCartItem_spec k w card Hk) as (Hst1 & _ & Hls1 & _).
  fold w1 in Hst1, Hls1.
  assert (Hwritten : localStorage w1 !! "catalog-cart"
                     = Some (JSON_stringify (cartIndices (state w1)))).
  { rewrite Hls1, Hst1. apply lookup_insert_eq. }
  split; [exact Hwritten |].
  eexists. split; [reflexivity |].
  cbn. rewrite Hsame, Hwritten. apply restore_cart_stringify.
  rewrite Hst1. cbn [cartIndices set_cartIndices].
  destruct (Set_has _ _); [now apply Set_delete_NoDup | now apply Set_add_NoDup].
Qed.

Lemma cart_persistence_roundtrip_witness :
  let w1 := toggleCartItem 1 (Scenario.loaded ∅) in
  localStorage w1 !! "catalog-cart"
  = Some (JSON_stringify (cartIndices (state w1))) /\
  exists w2,
    initializeApplication (Parsed (Some Scenario.catalog)) Scenario.objects
      Scenario.page {["catalog-cart" := "[1]"]} = Some w2 /\
    cartIndices (state w2) = cartIndices (state w1).
Proof.
  refine (cart_persistence_roundtrip (Scenario.loaded ∅) 1
            (mkCard false 100 "https://example.com/b" "b.jpg" "B" "$500"
               "10in" "10in" "10in" 1 false 1 false "Add to Cart")
            (Some Scenario.catalog) Scenario.objects Scenario.page
            {["catalog-cart" := "[1]"]} _ _ _).
  - apply NoDup_nil_2.
  - vm_compute. reflexivity.
  - vm_compute. reflexivity.
Defined.

(** The scenario of the specification: [toggleCart(1)] on an empty cart
    writes the one-element list, and a session that starts with that text
    has the cart [{1}]. *)
Example toggleCart_1_scenario :
  let w1 := toggleCartItem 1 (Scenario.loaded ∅) in
  cartIndices (state (Scenario.loaded ∅)) = [] /\
  cartIndices (state w1) = [1] /\
  localStorage w1 !! "catalog-cart" = Some "[1]" /\
  cartIndices (state (Scenario.loaded {["catalog-cart" := "[1]"]})) = [1].
Proof. vm_compute. repeat split. Qed.

(** Absent, empty or malformed persisted text gives an empty cart. *)
Example restore_cart_fallbacks :
  restore_cart None = [] /\
  restore_cart (Some EmptyString) = [] /\
  restore_cart (Some "{not json") = [] /\
  restore_cart (Some "{}") = [] /\
  restore_cart (Some " [ 2, 0 ,2 ] ") = [2; 0].
Proof. vm_compute. repeat split. Qed.

(** Clearing the cart removes the persisted record, and the next session
    starts with an empty cart. *)
Lemma clearCart_then_load (w : World) :
  localStorage (clearCart w) !! "catalog-cart" = None /\
  restore_cart (localStorage (clearCart w) !! "catalog-cart") = [] /\
  trace (clearCart w) = (trace w ++ [RemoveItem "catalog-cart"])%list.
Proof.
  assert (H : localStorage (clearCart w) !! "catalog-cart" = None)
    by apply lookup_delete_eq.
  rewrite H. repeat split.
Qed.

End CartClaims.

(** ** Clearing and filtering *)

Section FrameClaims.

Implicit Types (w : World).

(** C10. Clearing the compare set touches neither the cart nor the filter,
    and clearing the cart touches neither the compare set nor the filter;
    each empties its own set. *)
Theorem clear_operations_are_independent (w : World) :
  (compareIndices (state (clearComparisons w)) = [] /\
   cartIndices (state (clearComparisons w)) = cartIndices (state w) /\
   activeFilter (state (clearComparisons w)) = activeFilter (state w)) /\
  (cartIndices (state (clearCart w)) = [] /\
   compareIndices (state (clearCart w)) = compareIndices (state w) /\
   activeFilter (state (clearCart w)) = activeFilter (state w)).
Proof.
  rewrite state_clearComparisons, state_clearCart.
  repeat split.
Qed.

(** The persisted cart goes with the cart, and only with it. *)
Lemma clear_operations_storage w :
  localStorage (clearComparisons w) = localStorage w /\
  localStorage (clearCart w) = delete "catalog-cart" (localStorage w).
Proof. split; reflexivity. Qed.

Lemma heap_step w e : heap (step w e) = heap w.
Proof.
  destruct e; cbn; try reflexivity.
  - unfold handleGalleryInteractions, toggleComparisonItem.
    destruct (gallery _ !! k) as [card |]; [| reflexivity].
    destruct (cb_checked card); [| reflexivity].
    destruct (CONFIG.MAX_COMPARE_ITEMS <=? _); reflexivity.
  - unfold toggleCartItem.
    destruct (gallery _ !! k) as [card |]; [| reflexivity].
    cbn. destruct (Set_has _ _); reflexivity.
  - destruct button; reflexivity.
  - unfold openComparisonModal.
    destruct (comparison_items _ _); reflexivity.
  - unfold openCartModal. destruct (Set_size _ =? 0); [reflexivity |].
    destruct (deref_all _ _); reflexivity.
Qed.

Lemma heap_run w es : heap (run w es) = heap w.
Proof.
  revert w. induction es as [| e es IH]; intros w; [reflexivity |].
  rewrite run_cons, IH. apply heap_step.
Qed.

(** Filter clicks change the filter and nothing else of the state. *)
Lemma filter_clicks_state w (buttons : list (option string)) :
  let w' := run w (ClickFilter <$> buttons) in
  catalogItems (state w') = catalogItems (state w) /\
  compareIndices (state w') = compareIndices (state w) /\
  cartIndices (state w') = cartIndices (state w).
Proof.
  revert w. induction buttons as [| b buttons IH]; intros w; [now repeat split |].
  rewrite fmap_cons. cbv zeta. rewrite run_cons.
  destruct (IH (step w (ClickFilter b))) as (H1 & H2 & H3).
  rewrite H1, H2, H3. cbn [step]. rewrite state_handleCategoryFilterClick.
  destruct b; now repeat split.
Qed.

(** Every card of a fresh render carries the markers its identity has in
    the two selection sets. *)
Lemma rendered_cards_in_sync w :
  Forall (card_in_sync (state w)) (gallery (dom (renderGalleryGrid w))).
Proof.
  apply Forall_lookup. intros k card. cbn.
  rewrite list_lookup_imap. intros Hk.
  destruct (visibleData (heap w) (state w) !! k) as [item |]; [| discriminate].
  injection Hk as <-. repeat split.
Qed.

(** A visible item has its card, tagged with the result of [indexOf]. *)
Lemma rendered_card_of_item w (item : ref) :
  item ∈ visibleData (heap w) (state w) ->
  exists k card,
    gallery (dom (renderGalleryGrid w)) !! k = Some card /\
    card = buildCardElement (heap w) (state w) item k.
Proof.
  intros Hin. apply list_elem_of_lookup in Hin as [k Hk].
  exists k. eexists. split; [| reflexivity].
  cbn. now rewrite list_lookup_imap, Hk.
Qed.

Lemma Array_get_elem_of {A} (a : list A) (idx : Z) (x : A) :
  Array_get a idx = Some x -> x ∈ a.
Proof.
  unfold Array_get. destruct (idx <? 0); [discriminate |].
  apply list_elem_of_lookup_2.
Qed.

(** C5. Changing the filter, any number of times, leaves the compare set
    and the cart exactly as they were. Hence after filter changes that hid
    an item, a filter change that shows it again renders its card with the
    markers of its identity in the unchanged sets: ticked and [selected]
    when the identity is in the compare set, [in-cart] when it is in the
    cart. *)
Theorem filter_changes_keep_selections (w : World)
    (buttons : list (option string)) :
  let w' := run w (ClickFilter <$> buttons) in
  compareIndices (state w') = compareIndices (state w) /\
  cartIndices (state w') = cartIndices (state w) /\
  (forall (f : string),
     let w'' := handleCategoryFilterClick (Some f) w' in
     compareIndices (state w'') = compareIndices (state w) /\
     cartIndices (state w'') = cartIndices (state w) /\
     Forall (card_in_sync (state w)) (gallery (dom w'')) /\
     (forall (id : Z) (item : ref),
        Array_get (catalogItems (state w)) id = Some item ->
        Array_indexOf (catalogItems (state w)) item = id ->
        f = "all" \/ category (heap w item) = f ->
        exists k card,
          gallery (dom w'') !! k = Some card /\
          cb_data_index card = id /\
          cb_checked card = Set_has id (compareIndices (state w)) /\
          card_selected card = Set_has id (compareIndices (state w)) /\
          btn_in_cart card = Set_has id (cartIndices (state w)))).
Proof.
  intros w'. destruct (filter_clicks_state w buttons) as (Hcat & Hcmp & Hcart).
  fold w' in Hcat, Hcmp, Hcart.
  assert (Hheap : heap w' = heap w) by apply heap_run.
  clearbody w'.
  split; [exact Hcmp |]. split; [exact Hcart |].
  intros f w''.
  set (w1 := set_state (set_activeFilter f (state w')) w').
  assert (Hw'' : w'' = renderGalleryGrid w1) by reflexivity.
  assert (Hst : state w1 = mkState (catalogItems (state w))
                             (compareIndices (state w))
                             (cartIndices (state w)) f).
  { subst w1. cbn. unfold set_activeFilter. now rewrite Hcat, Hcmp, Hcart. }
  assert (Hheap1 : heap w1 = heap w) by exact Hheap.
  clearbody w1. clearbody w''. subst w''.
  split; [now rewrite state_renderGalleryGrid, Hst |].
  split; [now rewrite state_renderGalleryGrid, Hst |].
  split.
  - pose proof (rendered_cards_in_sync w1) as Hsync.
    eapply Forall_impl; [exact Hsync |].
    intros c. unfold card_in_sync. now rewrite Hst.
  - intros id item Hget Hidx Hshown.
    assert (Hvis : item ∈ visibleData (heap w1) (state w1)).
    { unfold visibleData. rewrite Hst. cbn [activeFilter catalogItems].
      apply Array_get_elem_of in Hget.
      destruct (decide (f = "all")) as [_ | Hne]; [exact Hget |].
      apply list_elem_of_filter. split; [| exact Hget].
      destruct Hshown as [-> | Hcategory]; [contradiction |].
      now rewrite Hheap1. }
    destruct (rendered_card_of_item w1 item Hvis) as (k & card & Hk & ->).
    exists k. eexists. split; [exact Hk |].
    unfold buildCardElement. rewrite Hst.
    cbn [cb_data_index cb_checked card_selected btn_in_cart catalogItems
         compareIndices cartIndices].
    rewrite Hidx. now repeat split.
Qed.

(** Select, hide, reveal: sofa A is ticked, the filter goes to the chairs
    and back to the sofas, and A's card comes back ticked. *)
Example select_hide_reveal :
  let w1 := run (Scenario.loaded ∅) [ChangeCompareCheckbox 0] in
  let w2 := run w1 [ClickFilter (Some "chair")] in
  let w3 := run w2 [ClickFilter (Some "sofa")] in
  rendered_identities w2 = [1] /\
  rendered_identities w3 = [0; 2] /\
  cb_checked <$> gallery (dom w3) = [true; false] /\
  card_selected <$> gallery (dom w3) = [true; false].
Proof. vm_compute. repeat split. Qed.

End FrameClaims.

(** ** Rendering: the visible subset and the identities of its cards *)

Section RenderClaims.

Implicit Types (w : World) (h : Heap) (st : State) (item x : ref) (a : list ref).

(** [indexOf] finds the first position that holds the reference. *)
Lemma Array_indexOf_from_first (i : Z) a x (n : nat) :
  a !! n = Some x ->
  (forall m, (m < n)%nat -> a !! m <> Some x) ->
  Array_indexOf_from i a x = i + Z.of_nat n.
Proof.
  revert i n. induction a as [| y a IH]; intros i n Hn Hfirst; [discriminate |].
  cbn [Array_indexOf_from]. destruct n as [| n].
  - injection Hn as ->. rewrite Nat.eqb_refl. lia.
  - destruct (Nat.eqb_spec y x) as [-> | Hne].
    + exfalso. apply (Hfirst 0%nat); [lia | reflexivity].
    + rewrite (IH (i + 1) n Hn); [lia |].
      intros m Hm. apply (Hfirst (S m)). lia.
Qed.

Lemma Array_indexOf_from_elem (i : Z) a x :
  x ∈ a ->
  exists n, a !! n = Some x /\ Array_indexOf_from i a x = i + Z.of_nat n.
Proof.
  revert i. induction a as [| y a IH]; intros i Hx; [inversion Hx |].
  cbn [Array_indexOf_from]. destruct (Nat.eqb_spec y x) as [-> | Hne].
  - exists 0%nat. split; [reflexivity | lia].
  - apply elem_of_cons in Hx as [-> | Hx]; [contradiction |].
    destruct (IH (i + 1) Hx) as (n & Hn & Hidx).
    exists (S n). split; [exact Hn | lia].
Qed.

(** Looking up the identity gives back the very object. *)
Lemma Array_get_indexOf a x :
  x ∈ a -> Array_get a (Array_indexOf a x) = Some x.
Proof.
  intros Hx. destruct (Array_indexOf_from_elem 0 a x Hx) as (n & Hn & Hidx).
  unfold Array_indexOf, Array_get. rewrite Hidx.
  destruct (Z.ltb_spec (0 + Z.of_nat n) 0) as [Hneg | _]; [lia |].
  replace (Z.to_nat (0 + Z.of_nat n)) with n by lia. exact Hn.
Qed.

(** When no object occurs twice, the identity of an entry is its
    position. *)
Lemma Array_indexOf_position a x (n : nat) :
  NoDup a -> a !! n = Some x -> Array_indexOf a x = Z.of_nat n.
Proof.
  intros Hnd Hn. unfold Array_indexOf.
  rewrite (Array_indexOf_from_first 0 a x n Hn); [lia |].
  intros m Hm Hmx. pose proof (NoDup_lookup a m n x Hnd Hmx Hn). lia.
Qed.

(** The identities on the cards are the results of [indexOf]. *)
Lemma rendered_identities_indexOf w :
  rendered_identities (renderGalleryGrid w)
  = Array_indexOf (catalogItems (state w)) <$> visibleData (heap w) (state w).
Proof.
  unfold rendered_identities. cbn [renderGalleryGrid set_dom set_gallery dom gallery].
  rewrite fmap_imap. apply list_eq. intros k.
  rewrite list_lookup_imap, list_lookup_fmap.
  destruct (visibleData (heap w) (state w) !! k); reflexivity.
Qed.

(** The array the code computes, on any suffix [l] of the catalogue that
    follows a prefix [pre]: it holds the entries at the kept positions. *)
Lemma visible_suffix h (f : string) (pre l : list ref) :
  omap (fun i => (pre ++ l)%list !! i) (kept_positions_from h f (length pre) l)
  = if decide (f = "all") then l
    else filter (fun item => category (h item) = f) l.
Proof.
  revert pre. induction l as [| x l IH]; intros pre.
  - cbn. now destruct (decide (f = "all")).
  - cbn [kept_positions_from].
    specialize (IH (pre ++ [x])%list).
    rewrite <- app_assoc, length_app in IH. cbn [length app] in IH.
    rewrite Nat.add_1_r in IH.
    unfold keeps. destruct (decide (f = "all")) as [Hall | Hnot].
    + rewrite bool_decide_eq_true_2 by assumption. cbn [orb omap list_omap].
      rewrite list_lookup_middle by reflexivity. cbn. now rewrite IH.
    + rewrite (bool_decide_eq_false_2 _ Hnot). cbn [orb].
      destruct (decide (category (h x) = f)) as [Hcat | Hcat].
      * rewrite bool_decide_eq_true_2 by assumption.
        rewrite filter_cons_True by assumption. cbn [omap list_omap].
        rewrite list_lookup_middle by reflexivity. cbn. now rewrite IH.
      * rewrite bool_decide_eq_false_2 by assumption.
        rewrite filter_cons_False by assumption. exact IH.
Qed.

Lemma visibleData_spec h st : visibleData h st = spec_visible h st.
Proof.
  unfold visibleData, spec_visible, visible_positions.
  symmetry. apply (visible_suffix h (activeFilter st) [] (catalogItems st)).
Qed.

(** With pairwise distinct entries, the identities of the visible items are
    the kept positions. *)
Lemma identities_suffix h (f : string) (pre l : list ref) :
  NoDup (pre ++ l)%list ->
  Array_indexOf (pre ++ l)%list
    <$> (if decide (f = "all") then l
         else filter (fun item => category (h item) = f) l)
  = Z.of_nat <$> kept_positions_from h f (length pre) l.
Proof.
  revert pre. induction l as [| x l IH]; intros pre Hnd.
  - cbn. now destruct (decide (f = "all")).
  - cbn [kept_positions_from].
    assert (Hx : Array_indexOf (pre ++ x :: l)%list x = Z.of_nat (length pre)).
    { apply Array_indexOf_position; [exact Hnd |].
      now apply list_lookup_middle. }
    specialize (IH (pre ++ [x])%list).
    rewrite <- app_assoc, length_app in IH. cbn [length app] in IH.
    rewrite Nat.add_1_r in IH. specialize (IH Hnd).
    unfold keeps. destruct (decide (f = "all")) as [Hall | Hnot].
    + rewrite bool_decide_eq_true_2 by assumption. cbn [orb].
      rewrite !fmap_cons, Hx. now rewrite IH.
    + rewrite (bool_decide_eq_false_2 _ Hnot). cbn [orb].
      destruct (decide (category (h x) = f)) as [Hcat | Hcat].
      * rewrite bool_decide_eq_true_2 by assumption.
        rewrite filter_cons_True by assumption.
        rewrite !fmap_cons, Hx. now rewrite IH.
      * rewrite bool_decide_eq_false_2 by assumption.
        rewrite filter_cons_False by assumption. exact IH.
Qed.

Lemma visibleData_sublist h st : sublist (visibleData h st) (catalogItems st).
Proof.
  unfold visibleData. destruct (decide (activeFilter st = "all")).
  - reflexivity.
  - apply sublist_filter.
Qed.

Lemma elem_of_visibleData h st item :
  item ∈ visibleData h st <->
  item ∈ catalogItems st /\
  (activeFilter st = "all" \/ category (h item) = activeFilter st).
Proof.
  unfold visibleData. destruct (decide (activeFilter st = "all")) as [Hall | Hnot].
  - tauto.
  - rewrite list_elem_of_filter. tauto.
Qed.

(** C4. The visible subset [renderGalleryGrid] computes is the ordered
    sub-sequence of the original collection the specification describes:
    the whole collection under ["all"], otherwise the entries whose
    category is the filter, taken at increasing positions. It is a
    sub-list of the collection (nothing is reordered), it holds exactly the
    entries the filter keeps, the gallery has one card per visible item,
    and looking up the identity of each card in the original collection
    gives back the visible items in order. *)
Theorem visible_subset_is_ordered_subsequence (w : World) :
  let st := state w in
  let visible := visibleData (heap w) st in
  let w' := renderGalleryGrid w in
  visible = spec_visible (heap w) st /\
  (activeFilter st = "all" -> visible = catalogItems st) /\
  sublist visible (catalogItems st) /\
  (forall item,
     item ∈ visible <->
     item ∈ catalogItems st /\
     (activeFilter st = "all" \/ category (heap w item) = activeFilter st)) /\
  length (gallery (dom w')) = length visible /\
  Array_get (catalogItems st) <$> rendered_identities w' = Some <$> visible.
Proof.
  intros st visible w'. subst visible w' st.
  split; [apply visibleData_spec |].
  split.
  { intros Hall. unfold visibleData.
    now destruct (decide (activeFilter (state w) = "all")). }
  split; [apply visibleData_sublist |].
  split; [intros item; apply elem_of_visibleData |].
  split.
  { cbn [renderGalleryGrid set_dom set_gallery dom gallery].
    apply length_imap. }
  rewrite rendered_identities_indexOf. rewrite <- list_fmap_compose.
  apply list_eq. intros k. rewrite !list_lookup_fmap.
  destruct (visibleData (heap w) (state w) !! k) as [item |] eqn:Hk;
    [| reflexivity].
  cbn. f_equal. apply Array_get_indexOf.
  apply list_elem_of_lookup_2 in Hk.
  now apply elem_of_visibleData in Hk as [Hin _].
Qed.

(** The scenario of the specification: under ["sofa"] the visible items
    are A and C, with the identities 0 and 2. *)
Example sofa_filter_scenario :
  let w := run (Scenario.loaded ∅) [ClickFilter (Some "sofa")] in
  visibleData (heap w) (state w) = [0; 2]%nat /\
  rendered_identities w = [0; 2] /\
  card_title <$> gallery (dom w) = ["A"; "C"].
Proof. vm_compute. repeat split. Qed.

(** The identity on each card is found when the card is built, by
    [indexOf], a search of the original collection for the very object
    (reference equality, not a comparison of content). When the entries of
    the collection are pairwise distinct objects, this identity is the
    position of the item in the original collection, for every filter; two
    entries at different positions then never get the same identity, even
    when their contents are equal. *)
Theorem rendered_identity_is_position (w : World) :
  NoDup (catalogItems (state w)) ->
  let st := state w in
  let w' := renderGalleryGrid w in
  rendered_identities w'
  = Array_indexOf (catalogItems st) <$> visibleData (heap w) st /\
  rendered_identities w' = Z.of_nat <$> visible_positions (heap w) st /\
  (forall (i j : nat) (ri rj : ref),
     catalogItems st !! i = Some ri ->
     catalogItems st !! j = Some rj ->
     i <> j ->
     heap w ri = heap w rj ->
     Array_indexOf (catalogItems st) ri = Z.of_nat i /\
     Array_indexOf (catalogItems st) rj = Z.of_nat j /\
     Array_indexOf (catalogItems st) ri <> Array_indexOf (catalogItems st) rj).
Proof.
  intros Hnd st w'. subst w' st.
  split; [apply rendered_identities_indexOf |].
  split.
  - rewrite rendered_identities_indexOf. unfold visibleData, visible_positions.
    apply (identities_suffix (heap w) (activeFilter (state w)) []
             (catalogItems (state w))).
    exact Hnd.
  - intros i j ri rj Hi Hj Hij _.
    rewrite (Array_indexOf_position _ _ i Hnd Hi).
    rewrite (Array_indexOf_position _ _ j Hnd Hj).
    repeat split. lia.
Qed.

Lemma NoDup_catalog : NoDup Scenario.catalog.
Proof.
  unfold Scenario.catalog.
  apply NoDup_cons. split.
  { rewrite !elem_of_cons, elem_of_nil. intros [H | [H | []]]; discriminate. }
  apply NoDup_cons. split.
  { rewrite list_elem_of_singleton. discriminate. }
  apply NoDup_singleton.
Defined.

Lemma NoDup_twins : NoDup [3; 4]%nat.
Proof.
  apply NoDup_cons. split.
  - rewrite list_elem_of_singleton. discriminate.
  - apply NoDup_singleton.
Defined.

Lemma rendered_identity_is_position_witness :
  let w := twins in
  let st := state w in
  let w' := renderGalleryGrid w in
  rendered_identities w'
  = Array_indexOf (catalogItems st) <$> visibleData (heap w) st /\
  rendered_identities w' = Z.of_nat <$> visible_positions (heap w) st /\
  (forall (i j : nat) (ri rj : ref),
     catalogItems st !! i = Some ri ->
     catalogItems st !! j = Some rj ->
     i <> j ->
     heap w ri = heap w rj ->
     Array_indexOf (catalogItems st) ri = Z.of_nat i /\
     Array_indexOf (catalogItems st) rj = Z.of_nat j /\
     Array_indexOf (catalogItems st) ri <> Array_indexOf (catalogItems st) rj).
Proof.
  apply (rendered_identity_is_position twins).
  exact NoDup_twins.
Defined.

(** Two distinct objects with the same content get the identities of their
    positions. *)
Example twins_get_their_positions :
  heap twins 3%nat = heap twins 4%nat /\
  catalogItems (state twins) = [3; 4]%nat /\
  rendered_identities (renderGalleryGrid twins) = [0; 1].
Proof. vm_compute. repeat split. Qed.

(** C1, on the code. When one object sits at the positions 0 and 1 of the
    collection (a YAML alias gives that), [indexOf] finds it at position 0
    both times: both cards carry the identity 0, although the second card
    shows the entry at position 1. The identity is then neither the
    position of the item nor unique, against the comment of
    [buildCardElement] (the stable, original index as a unique
    identifier). *)
Lemma aliased_entries_share_an_identity :
  let w := Scenario.aliased in
  visible_positions (heap w) (state w) = [0; 1]%nat /\
  rendered_identities (renderGalleryGrid w) = [0; 0] /\
  rendered_identities (renderGalleryGrid w)
  <> Z.of_nat <$> visible_positions (heap w) (state w).
Proof. vm_compute. repeat split. discriminate. Qed.

End RenderClaims.

(** ** The comparison view *)

Section ComparisonClaims.

Implicit Types (w : World) (h : Heap).

(** Identities within the bounds of the catalogue are resolved, each to the
    object at its position, in the order given. *)
Lemma deref_in_bounds h (catalog : list ref) (ids : list Z) :
  Forall (fun idx => 0 <= idx < Z.of_nat (length catalog)) ids ->
  exists items,
    deref_all h ((fun idx => Array_get catalog idx) <$> ids) = Some items /\
    Forall2 (fun idx item =>
               exists r : ref, catalog !! Z.to_nat idx = Some r /\ item = h r)
            ids items.
Proof.
  induction 1 as [| idx ids Hidx Hids (items & Hitems & Hall)].
  - exists []. split; [reflexivity | constructor].
  - assert (Hr : exists r : ref, catalog !! Z.to_nat idx = Some r).
    { apply lookup_lt_is_Some. lia. }
    destruct Hr as [r Hr]. exists (h r :: items). split.
    + unfold deref_all in *. apply mapM_Some_2. rewrite fmap_cons.
      constructor; [| now apply mapM_Some_1].
      unfold Array_get.
      destruct (Z.ltb_spec idx 0) as [Hneg | _]; [lia |].
      now rewrite Hr.
    + constructor; [| exact Hall]. now exists r.
Qed.

(** C9. [openComparisonModal] resolves every identity of the compare set
    by its position in the original collection (the filter and the
    gallery play no part), shows the modal, and for a compare set that is
    not empty writes a table that has, in each of its six rows, one cell
    per identity of the set, in the insertion order of the set, filled from
    the object at that position; for an empty compare set it writes no
    table. *)
Theorem comparison_columns_follow_insertion_order (w : World) :
  Forall (fun idx => 0 <= idx < Z.of_nat (length (catalogItems (state w))))
         (compareIndices (state w)) ->
  exists (items : list Item) (w' : World),
    openComparisonModal w = Some w' /\
    compare_table_container (dom w') = generateComparisonTableHTML items /\
    Forall2 (fun idx item =>
               exists r : ref,
                 catalogItems (state w) !! Z.to_nat idx = Some r /\
                 item = heap w r)
            (compareIndices (state w)) items /\
    (forall f : string,
       comparison_items (heap w) (set_activeFilter f (state w)) = Some items) /\
    (forall t : Table,
       generateComparisonTableHTML items = Some t ->
       row_feature t = (fun i => (main_image_url i, product_name i)) <$> items /\
       row_price t = price <$> items /\
       row_width t = (fun i => width (dimensions i)) <$> items /\
       row_depth t = (fun i => depth_length (dimensions i)) <$> items /\
       row_height t = (fun i => height (dimensions i)) <$> items /\
       row_link t = url <$> items) /\
    length items = length (compareIndices (state w)) /\
    compare_modal_hidden (dom w') = false /\
    compare_table_container (dom w')
    = match compareIndices (state w) with
      | [] => None
      | _ :: _ =>
          Some {| row_feature :=
                    (fun i => (main_image_url i, product_name i)) <$> items;
                  row_price := price <$> items;
                  row_width := (fun i => width (dimensions i)) <$> items;
                  row_depth := (fun i => depth_length (dimensions i)) <$> items;
                  row_height := (fun i => height (dimensions i)) <$> items;
                  row_link := url <$> items |}
      end.
Proof.
  intros Hbounds.
  destruct (deref_in_bounds (heap w) _ _ Hbounds) as (items & Hitems & Hall).
  exists items. eexists. split.
  { unfold openComparisonModal, comparison_items, Array_from.
    rewrite Hitems. reflexivity. }
  split; [reflexivity |]. split; [exact Hall |]. split.
  { intros f. exact Hitems. }
  split.
  { intros t Ht. unfold generateComparisonTableHTML in Ht.
    destruct items as [| i items]; [discriminate |].
    injection Ht as <-. repeat split. }
  split; [symmetry; exact (Forall2_length _ _ _ Hall) |].
  split; [reflexivity |].
  cbn [compare_table_container dom set_dom].
  destruct Hall; reflexivity.
Qed.

Lemma comparison_columns_witness :
  exists (items : list Item) (w' : World),
    openComparisonModal Scenario.compared = Some w' /\
    compare_table_container (dom w') = generateComparisonTableHTML items /\
    Forall2 (fun idx item =>
               exists r : ref,
                 catalogItems (state Scenario.compared) !! Z.to_nat idx = Some r /\
                 item = heap Scenario.compared r)
            (compareIndices (state Scenario.compared)) items /\
    (forall f : string,
       comparison_items (heap Scenario.compared)
         (set_activeFilter f (state Scenario.compared)) = Some items) /\
    (forall t : Table,
       generateComparisonTableHTML items = Some t ->
       row_feature t = (fun i => (main_image_url i, product_name i)) <$> items /\
       row_price t = price <$> items /\
       row_width t = (fun i => width (dimensions i)) <$> items /\
       row_depth t = (fun i => depth_length (dimensions i)) <$> items /\
       row_height t = (fun i => height (dimensions i)) <$> items /\
       row_link t = url <$> items) /\
    length items = length (compareIndices (state Scenario.compared)) /\
    compare_modal_hidden (dom w') = false /\
    compare_table_container (dom w')
    = match compareIndices (state Scenario.compared) with
      | [] => None
      | _ :: _ =>
          Some {| row_feature :=
                    (fun i => (main_image_url i, product_name i)) <$> items;
                  row_price := price <$> items;
                  row_width := (fun i => width (dimensions i)) <$> items;
                  row_depth := (fun i => depth_length (dimensions i)) <$> items;
                  row_height := (fun i => height (dimensions i)) <$> items;
                  row_link := url <$> items |}
      end.
Proof.
  apply (comparison_columns_follow_insertion_order Scenario.compared).
  vm_compute. repeat constructor; discriminate.
Defined.

(** The scenario of the specification: with the sofas A and C ticked in
    that order under the filter ["sofa"], the compare set is [{0, 2}], the
    bar reads "2 of 3 selected" with the compare button enabled, and the
    table has A's column before C's. *)
Example comparison_scenario :
  compareIndices (state Scenario.compared) = [0; 2] /\
  compare_bar (dom Scenario.compared)
  = mkCompareBar false "2 of 3 selected" false /\
  (compare_table_container ∘ dom <$> openComparisonModal Scenario.compared)
  = Some (Some
      {| row_feature := [("a.jpg", "A"); ("c.jpg", "C")];
         row_price := ["$1000"; "$300"];
         row_width := ["10in"; "10in"];
         row_depth := ["10in"; "10in"];
         row_height := ["10in"; "10in"];
         row_link := ["https://example.com/a"; "https://example.com/c"] |}).
Proof. vm_compute. repeat split. Qed.

(** The columns follow the order of insertion, not the order of the
    catalogue: C ticked before A gives C's column first. *)
Example comparison_insertion_order :
  let w := run (Scenario.loaded ∅)
             [ChangeCompareCheckbox 2; ChangeCompareCheckbox 0] in
  compareIndices (state w) = [2; 0] /\
  (row_feature <$> (openComparisonModal w ≫= compare_table_container ∘ dom))
  = Some [("c.jpg", "C"); ("a.jpg", "A")].
Proof. vm_compute. repeat split. Qed.

End ComparisonClaims.

(** ** The cart total *)

Section CartTotal.

(** What [replace] leaves is made of digits and dots. *)
Lemma replace_non_numeric_chars (s : string) :
  string_forall (fun c => is_digit c || is_dot c) (replace_non_numeric s) = true.
Proof.
  induction s as [| c s IH]; [reflexivity |].
  cbn [replace_non_numeric].
  destruct (is_digit c || is_dot c) eqn:E; [| exact IH].
  cbn [string_forall]. now rewrite E, IH.
Qed.

(** The total is a running sum: each item adds the number read from its
    price, or zero when none is read. *)
Lemma cart_total_snoc (items : list Item) (item : Item) :
  cart_total (items ++ [item])%list
  = (cart_total items
     + match parseFloat (replace_non_numeric (price item)) with
       | None => 0
       | Some x => x
       end)%Q.
Proof. unfold cart_total, Array_reduce. now rewrite fold_left_app. Qed.

(** C3, on the code. For the two prices of the specification's example the
    handler does not arrive at 1000 + 2299: deleting every character that
    is neither a digit nor a dot turns ["$2,299 - $3,099"] into
    ["22993099"], which [parseFloat] reads as one number, and the total
    shown is $22,994,099.00. *)
Theorem cart_total_of_price_range :
  replace_non_numeric "$1,000.00" = "1000.00" /\
  replace_non_numeric "$2,299 - $3,099" = "22993099" /\
  (cart_total Scenario.example_cart == 22994099 # 1)%Q /\
  ~ (cart_total Scenario.example_cart == 3299 # 1)%Q /\
  calculateCartTotal Scenario.example_cart = "$22,994,099.00".
Proof.
  split; [reflexivity |]. split; [reflexivity |].
  split; [vm_compute; reflexivity |].
  split; [vm_compute; discriminate |].
  vm_compute. reflexivity.
Qed.

(** Prices that are read as the specification expects. *)
Example cart_total_plain_prices :
  calculateCartTotal [Scenario.priced "$1,000.00"; Scenario.priced "$2,299"]
  = "$3,299.00" /\
  calculateCartTotal [Scenario.priced "call us"; Scenario.priced "$1,399.00"]
  = "$1,399.00" /\
  calculateCartTotal [] = "$0.00".
Proof. vm_compute. repeat split. Qed.

End CartTotal.

(** ** Sessions stay consistent *)

Section Consistency.

Implicit Types (w : World) (k j : nat) (g : list Card) (st : State).

Lemma data_indices_alter (f : Card -> Card) k g :
  (forall c, cb_data_index (f c) = cb_data_index c) ->
  cb_data_index <$> alter f k g = cb_data_index <$> g.
Proof.
  intros Hf. apply list_eq. intros j. rewrite !list_lookup_fmap.
  destruct (decide (k = j)) as [-> | Hne].
  - rewrite list_lookup_alter_eq. destruct (g !! j); cbn; [| reflexivity].
    now rewrite Hf.
  - now rewrite list_lookup_alter_ne.
Qed.

(** The compare handler rewrites the card it was called on and no other,
    and never a [data-index]. *)
Lemma handleGalleryInteractions_other k w j :
  j <> k ->
  gallery (dom (handleGalleryInteractions k w)) !! j = gallery (dom w) !! j.
Proof.
  intros Hne. unfold handleGalleryInteractions, toggleComparisonItem.
  destruct (gallery (dom (user_flips_checkbox k w)) !! k) as [c |].
  - destruct (cb_checked c); [destruct (CONFIG.MAX_COMPARE_ITEMS <=? _) |];
      cbn; rewrite !list_lookup_alter_ne by congruence; reflexivity.
  - cbn. now rewrite list_lookup_alter_ne by congruence.
Qed.

Lemma handleGalleryInteractions_indices k w :
  cb_data_index <$> gallery (dom (handleGalleryInteractions k w))
  = cb_data_index <$> gallery (dom w).
Proof.
  unfold handleGalleryInteractions, toggleComparisonItem.
  destruct (gallery (dom (user_flips_checkbox k w)) !! k) as [c |].
  - destruct (cb_checked c); [destruct (CONFIG.MAX_COMPARE_ITEMS <=? _) |];
      cbn; rewrite !data_indices_alter; reflexivity.
  - cbn. now rewrite data_indices_alter.
Qed.

Lemma toggleCartItem_other k w j :
  j <> k -> gallery (dom (toggleCartItem k w)) !! j = gallery (dom w) !! j.
Proof.
  intros Hne. unfold toggleCartItem.
  destruct (gallery (dom w) !! k) as [c |]; [| reflexivity].
  destruct (Set_has _ _); cbn; now rewrite list_lookup_alter_ne by congruence.
Qed.

Lemma toggleCartItem_indices k w :
  cb_data_index <$> gallery (dom (toggleCartItem k w))
  = cb_data_index <$> gallery (dom w).
Proof.
  unfold toggleCartItem.
  destruct (gallery (dom w) !! k) as [c |]; [| reflexivity].
  destruct (Set_has _ _); cbn; now rewrite data_indices_alter.
Qed.

(** Distinct cards carry distinct identities. *)
Lemma other_card_other_identity g k j (ck cj : Card) :
  NoDup (cb_data_index <$> g) ->
  g !! k = Some ck -> g !! j = Some cj -> j <> k ->
  cb_data_index cj <> cb_data_index ck.
Proof.
  intros Hnd Hk Hj Hne Heq. apply Hne.
  apply (NoDup_lookup _ j k (cb_data_index cj) Hnd).
  - now rewrite list_lookup_fmap, Hj.
  - now rewrite list_lookup_fmap, Hk, Heq.
Qed.

Lemma Set_new_is_NoDup (a : list Z) : NoDup (Set_new a).
Proof.
  unfold Set_new.
  assert (H : forall acc, NoDup acc ->
                NoDup (fold_left (fun s x => Set_add x s) a acc)).
  { induction a as [| x a IH]; intros acc Hacc; [exact Hacc |].
    cbn. apply IH. now apply Set_add_NoDup. }
  apply H. constructor.
Qed.

Lemma restore_cart_NoDup (saved : option string) : NoDup (restore_cart saved).
Proof.
  unfold restore_cart. destruct saved as [[| c text] |]; try constructor.
  destruct (JSON_parse_array _); [apply Set_new_is_NoDup | constructor].
Qed.

(** The identity [indexOf] gives to an entry of the array is within its
    bounds, and different entries get different identities. *)
Lemma Array_indexOf_bounds (a : list ref) (x : ref) :
  x ∈ a -> 0 <= Array_indexOf a x < Z.of_nat (length a).
Proof.
  intros Hx. destruct (Array_indexOf_from_elem 0 a x Hx) as (n & Hn & Hidx).
  unfold Array_indexOf. rewrite Hidx.
  apply lookup_lt_Some in Hn. lia.
Qed.

Lemma Array_indexOf_inj (a : list ref) (x y : ref) :
  x ∈ a -> y ∈ a -> Array_indexOf a x = Array_indexOf a y -> x = y.
Proof.
  intros Hx Hy Heq.
  pose proof (Array_get_indexOf a x Hx) as Gx.
  pose proof (Array_get_indexOf a y Hy) as Gy.
  rewrite Heq, Gy in Gx. congruence.
Qed.

(** A render makes the gallery consistent with the state. *)
Lemma renderGalleryGrid_consistent w :
  NoDup (catalogItems (state w)) ->
  NoDup (compareIndices (state w)) ->
  NoDup (cartIndices (state w)) ->
  Set_size (compareIndices (state w)) <= CONFIG.MAX_COMPARE_ITEMS ->
  Forall (fun idx => 0 <= idx < Z.of_nat (length (catalogItems (state w))))
         (compareIndices (state w)) ->
  consistent (renderGalleryGrid w).
Proof.
  intros Hcat Hcmp Hcart Hsize Hbounds.
  assert (Hvis : forall item, item ∈ visibleData (heap w) (state w) ->
                              item ∈ catalogItems (state w)).
  { intros item Hin. now apply elem_of_visibleData in Hin as [Hin _]. }
  constructor; rewrite ?state_renderGalleryGrid; try assumption.
  - fold (rendered_identities (renderGalleryGrid w)).
    rewrite rendered_identities_indexOf.
    apply NoDup_fmap_2_strong.
    + intros x y Hx Hy. apply Array_indexOf_inj; auto.
    + eapply sublist_NoDup; [exact Hcat | apply visibleData_sublist].
  - fold (rendered_identities (renderGalleryGrid w)).
    rewrite rendered_identities_indexOf.
    apply Forall_fmap, Forall_forall. intros item Hin. cbn.
    apply Array_indexOf_bounds. auto.
  - apply rendered_cards_in_sync.
Qed.

(** The world the start-up hands to the listeners is consistent. *)
Lemma initializeApplication_consistent (document : option (list ref))
    (h : Heap) (page : Dom) (storage : gmap string string) (w : World) :
  NoDup (default [] document) ->
  initializeApplication (Parsed document) h page storage = Some w ->
  consistent w /\ compareIndices (state w) = []
  /\ catalogItems (state w) = default [] document.
Proof.
  intros Hnd Hinit. cbn in Hinit. injection Hinit as <-.
  split; [| split; reflexivity].
  apply renderGalleryGrid_consistent; cbn.
  - exact Hnd.
  - constructor.
  - apply restore_cart_NoDup.
  - discriminate.
  - constructor.
Qed.

Lemma consistent_same w w' :
  state w' = state w ->
  gallery (dom w') = gallery (dom w) ->
  consistent w -> consistent w'.
Proof.
  intros Hst Hg [H1 H2 H3 H4 H5 H6 H7 H8].
  constructor; rewrite ?Hst, ?Hg; assumption.
Qed.

Lemma sync_frame st st' (c : Card) :
  card_in_sync st c ->
  Set_has (cb_data_index c) (compareIndices st')
  = Set_has (cb_data_index c) (compareIndices st) ->
  Set_has (btn_data_index c) (cartIndices st')
  = Set_has (btn_data_index c) (cartIndices st) ->
  card_in_sync st' c.
Proof.
  intros (H1 & H2 & H3 & H4 & H5) Hcmp Hcart.
  unfold card_in_sync. rewrite Hcmp, Hcart. auto.
Qed.

Lemma in_bounds_delete (n : Z) (x : Z) (s : NumSet) :
  Forall (fun idx => 0 <= idx < n) s ->
  Forall (fun idx => 0 <= idx < n) (Set_delete x s).
Proof.
  rewrite !Forall_forall. intros H y Hy.
  apply elem_of_Set_delete in Hy as [_ Hy]. auto.
Qed.

Lemma in_bounds_add (n : Z) (x : Z) (s : NumSet) :
  0 <= x < n ->
  Forall (fun idx => 0 <= idx < n) s ->
  Forall (fun idx => 0 <= idx < n) (Set_add x s).
Proof.
  rewrite !Forall_forall. intros Hx H y Hy.
  apply elem_of_Set_add in Hy as [-> | Hy]; auto.
Qed.

Lemma consistent_handleGalleryInteractions k w :
  consistent w -> consistent (handleGalleryInteractions k w).
Proof.
  intros Hw. pose proof Hw as [Hcat Hcmp Hcart Hsize Hcb Hdist Hgb Hsync].
  pose proof (handleGalleryInteractions_indices k w) as Hidx.
  pose proof (handleGalleryInteractions_other k w) as Hother.
  destruct (gallery (dom w) !! k) as [card |] eqn:Hk.
  2:{ (* no such card: nothing happens *)
    apply (consistent_same w); [| | exact Hw].
    - unfold handleGalleryInteractions. rewrite state_toggleComparisonItem.
      rewrite gallery_user_flips_checkbox, list_lookup_alter_eq, Hk. reflexivity.
    - apply list_eq. intros j. destruct (decide (j = k)) as [-> | Hne]; [| auto].
      rewrite Hk. apply lookup_ge_None.
      apply lookup_ge_None in Hk.
      assert (Hlen : length (gallery (dom (handleGalleryInteractions k w)))
                     = length (gallery (dom w))).
      { rewrite <- (length_fmap cb_data_index), Hidx. apply length_fmap. }
      lia. }
  assert (Hcard : card_in_sync (state w) card)
    by exact (Forall_lookup_1 _ _ _ _ Hsync Hk).
  assert (Hcard_bounds :
            0 <= cb_data_index card < Z.of_nat (length (catalogItems (state w)))).
  { rewrite Forall_fmap in Hgb. exact (Forall_lookup_1 _ _ _ _ Hgb Hk). }
  destruct Hcard as (Hchecked & Hselected & Hbtn & Hincart & Hlabel).
  assert (Hsync' :
    forall st' card',
      gallery (dom (handleGalleryInteractions k w)) !! k = Some card' ->
      card_in_sync st' card' ->
      cartIndices st' = cartIndices (state w) ->
      (forall x, x <> cb_data_index card ->
                 Set_has x (compareIndices st')
                 = Set_has x (compareIndices (state w))) ->
      Forall (card_in_sync st') (gallery (dom (handleGalleryInteractions k w)))).
  { intros st' card' Hk' Hcard' Hsame_cart Hframe.
    apply Forall_lookup. intros j c Hj.
    destruct (decide (j = k)) as [-> | Hne]; [congruence |].
    rewrite (Hother j Hne) in Hj.
    apply (sync_frame (state w)).
    - exact (Forall_lookup_1 _ _ _ _ Hsync Hj).
    - apply Hframe. exact (other_card_other_identity _ k j card c Hdist Hk Hj Hne).
    - now rewrite Hsame_cart. }
  destruct (cb_checked card) eqn:Hchk.
  - (* unticked: the identity leaves the set *)
    destruct (untick_spec k w card Hk Hchk) as (Hst & Hg & _).
    constructor; rewrite ?Hidx; rewrite ?Hst;
      cbn [catalogItems compareIndices cartIndices set_compareIndices];
      try assumption.
    + now apply Set_delete_NoDup.
    + pose proof (Set_size_delete_le (cb_data_index card)
                    (compareIndices (state w))). lia.
    + now apply in_bounds_delete.
    + apply (Hsync' _ _ Hg); [| reflexivity |].
      * unfold card_in_sync. cbn. rewrite Set_has_delete, Z.eqb_refl. cbn.
        rewrite <- Hbtn. auto.
      * intros x Hx. cbn. rewrite Set_has_delete.
        now rewrite (proj2 (Z.eqb_neq _ _) Hx).
  - destruct (Z.le_gt_cases CONFIG.MAX_COMPARE_ITEMS
                (Set_size (compareIndices (state w)))) as [Hfull | Hroom].
    + (* refused: nothing changes *)
      destruct (tick_refused_spec k w card Hk Hchk Hfull) as (Hst & Hg & _).
      constructor; rewrite ?Hidx; rewrite ?Hst; try assumption.
      apply (Hsync' _ _ Hg); [| reflexivity | reflexivity].
      unfold card_in_sync. rewrite Hchk. auto.
    + (* ticked: the identity enters the set *)
      destruct (tick_spec k w card Hk Hchk Hroom) as (Hst & Hg & _).
      constructor; rewrite ?Hidx; rewrite ?Hst;
        cbn [catalogItems compareIndices cartIndices set_compareIndices];
        try assumption.
      * now apply Set_add_NoDup.
      * pose proof (Set_size_add_le (cb_data_index card)
                      (compareIndices (state w))). lia.
      * now apply in_bounds_add.
      * apply (Hsync' _ _ Hg); [| reflexivity |].
        -- unfold card_in_sync. cbn. rewrite Set_has_add, Z.eqb_refl. cbn.
           rewrite <- Hbtn. auto.
        -- intros x Hx. cbn. rewrite Set_has_add.
           now rewrite (proj2 (Z.eqb_neq _ _) Hx).
Qed.

Lemma toggleCartItem_card k w (card : Card) :
  gallery (dom w) !! k = Some card ->
  let was_in := Set_has (btn_data_index card) (cartIndices (state w)) in
  gallery (dom (toggleCartItem k w)) !! k
  = Some (set_btn (negb was_in) (cart_label (negb was_in)) card).
Proof.
  intros Hk. cbv zeta. unfold toggleCartItem. rewrite Hk.
  destruct (Set_has _ _); cbn; now rewrite list_lookup_alter_eq, Hk.
Qed.

Lemma consistent_toggleCartItem k w :
  consistent w -> consistent (toggleCartItem k w).
Proof.
  intros Hw. pose proof Hw as [Hcat Hcmp Hcart Hsize Hcb Hdist Hgb Hsync].
  pose proof (toggleCartItem_indices k w) as Hidx.
  pose proof (toggleCartItem_other k w) as Hother.
  destruct (gallery (dom w) !! k) as [card |] eqn:Hk.
  2:{ unfold toggleCartItem. now rewrite Hk. }
  destruct (Forall_lookup_1 _ _ _ _ Hsync Hk)
    as (Hchecked & Hselected & Hbtn & Hincart & Hlabel).
  destruct (toggleCartItem_spec k w card Hk) as (Hst & _ & _ & _).
  pose proof (toggleCartItem_card k w card Hk) as Hg. cbv zeta in Hg.
  set (idx := btn_data_index card) in *.
  set (cart' := if Set_has idx (cartIndices (state w))
                then Set_delete idx (cartIndices (state w))
                else Set_add idx (cartIndices (state w))) in *.
  assert (Hhas : forall x, Set_has x cart'
                 = if x =? idx then negb (Set_has idx (cartIndices (state w)))
                   else Set_has x (cartIndices (state w))).
  { intros x. subst cart'.
    destruct (Set_has idx (cartIndices (state w))) eqn:Hin.
    - rewrite Set_has_delete. destruct (Z.eqb_spec x idx) as [-> | Hne];
        [reflexivity | reflexivity].
    - rewrite Set_has_add. destruct (Z.eqb_spec x idx) as [-> | Hne];
        [reflexivity | reflexivity]. }
  constructor; rewrite ?Hidx; rewrite ?Hst;
    cbn [catalogItems compareIndices cartIndices set_cartIndices];
    try assumption.
  - subst cart'. destruct (Set_has idx _);
      [now apply Set_delete_NoDup | now apply Set_add_NoDup].
  - apply Forall_lookup. intros j c Hj.
    destruct (decide (j = k)) as [-> | Hne].
    + rewrite Hg in Hj. injection Hj as <-.
      unfold card_in_sync. cbn.
      fold idx. rewrite Hhas, Z.eqb_refl. auto.
    + rewrite (Hother j Hne) in Hj.
      destruct (Forall_lookup_1 _ _ _ _ Hsync Hj) as (C1 & C2 & C3 & C4 & C5).
      assert (Hdiff : cb_data_index c <> cb_data_index card)
        by exact (other_card_other_identity _ k j card c Hdist Hk Hj Hne).
      unfold card_in_sync. cbn. rewrite Hhas.
      destruct (Z.eqb_spec (btn_data_index c) idx) as [Heq | _]; [| auto].
      exfalso. apply Hdiff. subst idx. congruence.
Qed.

Lemma consistent_clearComparisons w :
  consistent w -> consistent (clearComparisons w).
Proof.
  intros [Hcat Hcmp Hcart Hsize Hcb Hdist Hgb Hsync].
  assert (Hidx : cb_data_index <$> gallery (dom (clearComparisons w))
                 = cb_data_index <$> gallery (dom w)).
  { cbn. rewrite <- list_fmap_compose. reflexivity. }
  constructor; rewrite ?Hidx; rewrite ?state_clearComparisons;
    cbn [catalogItems compareIndices cartIndices set_compareIndices];
    try assumption.
  - constructor.
  - discriminate.
  - constructor.
  - cbn. apply Forall_fmap. eapply Forall_impl; [exact Hsync |].
    intros c (C1 & C2 & C3 & C4 & C5). unfold card_in_sync. cbn. auto.
Qed.

Lemma consistent_clearCart w : consistent w -> consistent (clearCart w).
Proof.
  intros [Hcat Hcmp Hcart Hsize Hcb Hdist Hgb Hsync].
  assert (Hidx : cb_data_index <$> gallery (dom (clearCart w))
                 = cb_data_index <$> gallery (dom w)).
  { cbn. rewrite <- list_fmap_compose. reflexivity. }
  constructor; rewrite ?Hidx; rewrite ?state_clearCart;
    cbn [catalogItems compareIndices cartIndices set_cartIndices];
    try assumption.
  - constructor.
  - cbn. apply Forall_fmap. eapply Forall_impl; [exact Hsync |].
    intros c (C1 & C2 & C3 & C4 & C5). unfold card_in_sync. cbn. auto.
Qed.

Lemma consistent_handleCategoryFilterClick button w :
  consistent w -> consistent (handleCategoryFilterClick button w).
Proof.
  intros Hw. destruct button as [f |]; [| exact Hw].
  destruct Hw as [Hcat Hcmp Hcart Hsize Hcb Hdist Hgb Hsync].
  now apply renderGalleryGrid_consistent.
Qed.

(** Every event keeps the world consistent. *)
Lemma consistent_step w e : consistent w -> consistent (step w e).
Proof.
  intros Hw. destruct e; cbn [step].
  - now apply consistent_handleGalleryInteractions.
  - now apply consistent_toggleCartItem.
  - now apply consistent_handleCategoryFilterClick.
  - apply (consistent_same w); [apply state_openComparisonModal | | exact Hw].
    unfold openComparisonModal. now destruct (comparison_items _ _).
  - now apply consistent_clearComparisons.
  - now apply (consistent_same w).
  - apply (consistent_same w); [apply state_openCartModal | | exact Hw].
    unfold openCartModal. destruct (Set_size _ =? 0); [reflexivity |].
    now destruct (deref_all _ _).
  - now apply (consistent_same w).
  - now apply consistent_clearCart.
Qed.

Lemma consistent_run w es : consistent w -> consistent (run w es).
Proof.
  revert w. induction es as [| e es IH]; intros w Hw; [exact Hw |].
  rewrite run_cons. apply IH. now apply consistent_step.
Qed.

(** In every world a session reaches from a catalogue of pairwise distinct
    objects, the sets have no repetition, the compare set has at most three
    identities, all within the bounds of the catalogue, and every card
    shows the membership of its identity: what the theorems on toggles and
    on the comparison view ask of the world they start from. *)
Lemma session_is_consistent (document : option (list ref)) (h : Heap)
    (page : Dom) (storage : gmap string string) (w0 : World) (es : list Event) :
  NoDup (default [] document) ->
  initializeApplication (Parsed document) h page storage = Some w0 ->
  consistent (run w0 es).
Proof.
  intros Hnd Hinit. apply consistent_run.
  now apply (initializeApplication_consistent document h page storage).
Qed.

End Consistency.

(** ** What the events leave alone *)

Section Frames.

Implicit Types (w : World) (e : Event) (k : nat).

(** Events other than the two cart events leave the cart, the storage and
    the badge as they are. *)
Lemma step_leaves_cart w e :
  (forall k, e <> ClickCartButton k) -> e <> ClickClearCart ->
  cartIndices (state (step w e)) = cartIndices (state w) /\
  localStorage (step w e) = localStorage w /\
  cart_badge (dom (step w e)) = cart_badge (dom w).
Proof.
  intros Hbtn Hclear. destruct e; cbn [step].
  - unfold handleGalleryInteractions, toggleComparisonItem.
    destruct (gallery (dom (user_flips_checkbox k w)) !! k) as [c |];
      [| now repeat split].
    destruct (cb_checked c); [destruct (CONFIG.MAX_COMPARE_ITEMS <=? _) |];
      now repeat split.
  - now destruct (Hbtn k).
  - destruct button; now repeat split.
  - unfold openComparisonModal.
    destruct (comparison_items _ _); now repeat split.
  - now repeat split.
  - now repeat split.
  - unfold openCartModal. destruct (Set_size _ =? 0); [now repeat split |].
    destruct (deref_all _ _); now repeat split.
  - now repeat split.
  - now destruct Hclear.
Qed.

(** Events other than the compare checkbox and the clear button leave the
    compare set and the floating bar as they are. *)
Lemma step_leaves_compare w e :
  (forall k, e <> ChangeCompareCheckbox k) -> e <> ClickClear ->
  compareIndices (state (step w e)) = compareIndices (state w) /\
  compare_bar (dom (step w e)) = compare_bar (dom w).
Proof.
  intros Hcb Hclear. destruct e; cbn [step].
  - now destruct (Hcb k).
  - unfold toggleCartItem.
    destruct (gallery (dom w) !! k) as [c |]; [| now split].
    cbn. destruct (Set_has _ _); now split.
  - destruct button; now split.
  - unfold openComparisonModal. destruct (comparison_items _ _); now split.
  - now destruct Hclear.
  - now split.
  - unfold openCartModal. destruct (Set_size _ =? 0); [now split |].
    destruct (deref_all _ _); now split.
  - now split.
  - now split.
Qed.

(** The two cart events write under the key [catalog-cart] only. *)
Lemma step_other_keys w e (key : string) :
  key <> "catalog-cart" ->
  localStorage (step w e) !! key = localStorage w !! key.
Proof.
  intros Hkey.
  assert (Hcart : forall k, localStorage (toggleCartItem k w) !! key
                            = localStorage w !! key).
  { intros k. unfold toggleCartItem.
    destruct (gallery (dom w) !! k) as [c |]; [| reflexivity].
    cbn. destruct (Set_has _ _); cbn; now rewrite lookup_insert_ne. }
  assert (Hclear : localStorage (clearCart w) !! key = localStorage w !! key).
  { cbn. now rewrite lookup_delete_ne. }
  destruct e; try exact (Hcart _); try exact Hclear;
    match goal with
    | |- localStorage (step w ?ev) !! _ = _ =>
        destruct (step_leaves_cart w ev) as (_ & -> & _);
          [intros ?; discriminate | discriminate | reflexivity]
    end.
Qed.

Lemma run_other_keys w (es : list Event) (key : string) :
  key <> "catalog-cart" ->
  localStorage (run w es) !! key = localStorage w !! key.
Proof.
  intros Hkey. revert w. induction es as [| e es IH]; intros w; [reflexivity |].
  rewrite run_cons, IH. now apply step_other_keys.
Qed.

End Frames.

(** ** Invariants of a session *)

Section SessionInvariants.

Implicit Types (w : World) (e : Event) (k : nat).

Lemma run_invariant (P : World -> Prop) :
  (forall w e, P w -> P (step w e)) ->
  forall w es, P w -> P (run w es).
Proof.
  intros Hstep w es. revert w.
  induction es as [| e es IH]; intros w Hw; [exact Hw |].
  rewrite run_cons. apply IH. now apply Hstep.
Qed.

Lemma empty_by_size (s : NumSet) : negb (0 <? Set_size s) = bool_decide (s = []).
Proof. destruct s; reflexivity. Qed.

(** *** The badge *)

Lemma updateCartBadge_reflects w : cart_badge_reflects (updateCartBadge w).
Proof. unfold cart_badge_reflects. cbn. now rewrite empty_by_size. Qed.

Lemma cart_badge_step w e :
  cart_badge_reflects w -> cart_badge_reflects (step w e).
Proof.
  intros Hw.
  assert (Hcart : forall k, cart_badge_reflects (toggleCartItem k w)).
  { intros k. unfold toggleCartItem.
    destruct (gallery (dom w) !! k) as [c |]; [| exact Hw].
    apply updateCartBadge_reflects. }
  assert (Hclear : cart_badge_reflects (clearCart w)) by reflexivity.
  destruct e; try exact (Hcart _); try exact Hclear;
    match goal with
    | |- cart_badge_reflects (step w ?ev) =>
        destruct (step_leaves_cart w ev) as (Hc & _ & Hb);
          [intros ?; discriminate | discriminate |];
        unfold cart_badge_reflects; rewrite Hc, Hb; exact Hw
    end.
Qed.

(** *** The persisted cart *)

Lemma cart_NoDup_step w e :
  NoDup (cartIndices (state w)) -> NoDup (cartIndices (state (step w e))).
Proof.
  intros Hnd.
  assert (Hcart : forall k, NoDup (cartIndices (state (toggleCartItem k w)))).
  { intros k. rewrite state_toggleCartItem.
    destruct (gallery (dom w) !! k) as [c |]; [| exact Hnd].
    cbn. destruct (Set_has _ _); cbn;
      [now apply Set_delete_NoDup | now apply Set_add_NoDup]. }
  destruct e; try exact (Hcart _); try (cbn; constructor);
    match goal with
    | |- NoDup (cartIndices (state (step w ?ev))) =>
        destruct (step_leaves_cart w ev) as (-> & _ & _);
          [intros ?; discriminate | discriminate | exact Hnd]
    end.
Qed.

Lemma cart_is_persisted_step w e :
  NoDup (cartIndices (state w)) ->
  cart_is_persisted w -> cart_is_persisted (step w e).
Proof.
  intros Hnd Hw.
  assert (Hcart : forall k, cart_is_persisted (toggleCartItem k w)).
  { intros k. destruct (gallery (dom w) !! k) as [c |] eqn:Hk.
    - destruct (toggleCartItem_spec k w c Hk) as (Hst & _ & Hls & _).
      unfold cart_is_persisted. rewrite Hls, Hst, lookup_insert_eq.
      cbn [cartIndices set_cartIndices]. apply restore_cart_stringify.
      destruct (Set_has _ _); [now apply Set_delete_NoDup | now apply Set_add_NoDup].
    - unfold toggleCartItem. now rewrite Hk. }
  assert (Hclear : cart_is_persisted (clearCart w)).
  { unfold cart_is_persisted. cbn. now rewrite lookup_delete_eq. }
  destruct e; try exact (Hcart _); try exact Hclear;
    match goal with
    | |- cart_is_persisted (step w ?ev) =>
        destruct (step_leaves_cart w ev) as (Hc & Hl & _);
          [intros ?; discriminate | discriminate |];
        unfold cart_is_persisted; rewrite Hc, Hl; exact Hw
    end.
Qed.

(** *** The floating bar *)

Lemma updateFloatingCompareBar_reflects w :
  compare_bar_reflects (updateFloatingCompareBar w).
Proof.
  unfold compare_bar_reflects. cbn.
  set (count := Set_size (compareIndices (state w))).
  assert (Hcount : 0 <= count) by (unfold count, Set_size; lia).
  destruct (decide (count = 0)) as [Hz | Hnz].
  - rewrite Hz. reflexivity.
  - destruct (Z.ltb_spec 0 count) as [_ | Hle]; [reflexivity | lia].
Qed.

Lemma compare_bar_step w e :
  compare_bar_reflects w -> compare_bar_reflects (step w e).
Proof.
  intros Hw.
  assert (Hcb : forall k, compare_bar_reflects (handleGalleryInteractions k w)).
  { intros k. unfold handleGalleryInteractions, toggleComparisonItem.
    destruct (gallery (dom (user_flips_checkbox k w)) !! k) as [c |];
      [| exact Hw].
    destruct (cb_checked c); [destruct (CONFIG.MAX_COMPARE_ITEMS <=? _) |];
      solve [exact Hw | apply updateFloatingCompareBar_reflects]. }
  assert (Hclear : compare_bar_reflects (clearComparisons w)).
  { pose proof (updateFloatingCompareBar_reflects
                  (set_state (set_compareIndices [] (state w)) w)) as H.
    exact H. }
  destruct e; try exact (Hcb _); try exact Hclear;
    match goal with
    | |- compare_bar_reflects (step w ?ev) =>
        destruct (step_leaves_compare w ev) as (Hc & Hb);
          [intros ?; discriminate | discriminate |];
        unfold compare_bar_reflects; rewrite Hc, Hb; exact Hw
    end.
Qed.

(** *** Identities within the catalogue *)

Lemma rendered_cards_within w : cards_within_catalog (renderGalleryGrid w).
Proof.
  unfold cards_within_catalog. apply Forall_lookup. intros k card. cbn.
  rewrite list_lookup_imap. intros Hk.
  destruct (visibleData (heap w) (state w) !! k) as [item |] eqn:Hitem;
    [| discriminate].
  injection Hk as <-. cbn. unfold in_bounds.
  apply list_elem_of_lookup_2, elem_of_visibleData in Hitem as [Hin _].
  split; now apply Array_indexOf_bounds.
Qed.

Lemma cards_within_alter (f : Card -> Card) k w st :
  catalogItems st = catalogItems (state w) ->
  (forall c, cb_data_index (f c) = cb_data_index c /\
             btn_data_index (f c) = btn_data_index c) ->
  cards_within_catalog w ->
  Forall (fun c => in_bounds st (cb_data_index c) /\
                   in_bounds st (btn_data_index c))
         (alter f k (gallery (dom w))).
Proof.
  intros Hcat Hf Hw. unfold in_bounds. rewrite Hcat.
  apply Forall_alter; [exact Hw |].
  intros c _ Hc. now destruct (Hf c) as [-> ->].
Qed.

Lemma cards_within_step w e :
  cards_within_catalog w -> cards_within_catalog (step w e).
Proof.
  intros Hw.
  assert (Hsame : forall w', catalogItems (state w') = catalogItems (state w) ->
                             gallery (dom w') = gallery (dom w) ->
                             cards_within_catalog w').
  { intros w' Hc Hg. unfold cards_within_catalog, in_bounds. now rewrite Hc, Hg. }
  assert (Hmap : forall (f : Card -> Card) w',
             catalogItems (state w') = catalogItems (state w) ->
             gallery (dom w') = f <$> gallery (dom w) ->
             (forall c, cb_data_index (f c) = cb_data_index c /\
                        btn_data_index (f c) = btn_data_index c) ->
             cards_within_catalog w').
  { intros f w' Hc Hg Hf. unfold cards_within_catalog, in_bounds.
    rewrite Hc, Hg. apply Forall_fmap. eapply Forall_impl; [exact Hw |].
    intros c Hcard. cbn. now destruct (Hf c) as [-> ->]. }
  destruct e; cbn [step].
  - unfold handleGalleryInteractions, toggleComparisonItem.
    assert (Hflip : cards_within_catalog (user_flips_checkbox k w)).
    { apply (cards_within_alter _ k w (state w)); auto. }
    destruct (gallery (dom (user_flips_checkbox k w)) !! k) as [c |];
      [| exact Hflip].
    destruct (cb_checked c); [destruct (CONFIG.MAX_COMPARE_ITEMS <=? _) |];
      apply (cards_within_alter _ k (user_flips_checkbox k w)); auto.
  - unfold toggleCartItem.
    destruct (gallery (dom w) !! k) as [c |]; [| exact Hw].
    cbn. destruct (Set_has _ _);
      apply (cards_within_alter _ k w); auto.
  - destruct button as [f |]; [| exact Hw]. apply rendered_cards_within.
  - apply Hsame; [now rewrite state_openComparisonModal |].
    unfold openComparisonModal. now destruct (comparison_items _ _).
  - apply (Hmap (fun c => set_cb_checked false (set_card_selected false c)));
      auto.
  - now apply Hsame.
  - apply Hsame; [now rewrite state_openCartModal |].
    unfold openCartModal. destruct (Set_size _ =? 0); [reflexivity |].
    now destruct (deref_all _ _).
  - now apply Hsame.
  - apply (Hmap (set_btn false "Add to Cart")); auto.
Qed.

Lemma compare_within_step w e :
  cards_within_catalog w ->
  Forall (in_bounds (state w)) (compareIndices (state w)) ->
  Forall (in_bounds (state (step w e))) (compareIndices (state (step w e))).
Proof.
  intros Hcards Hcmp. unfold in_bounds in *. rewrite catalogItems_step.
  assert (Hcb : forall k,
             Forall (fun idx => 0 <= idx < Z.of_nat (length (catalogItems (state w))))
                    (compareIndices (state (handleGalleryInteractions k w)))).
  { intros k. unfold handleGalleryInteractions.
    rewrite state_toggleComparisonItem, state_user_flips_checkbox.
    rewrite gallery_user_flips_checkbox, list_lookup_alter_eq.
    destruct (gallery (dom w) !! k) as [c |] eqn:Hk; [| exact Hcmp].
    cbn [fmap option_fmap option_map cb_checked cb_data_index set_cb_checked].
    destruct (Forall_lookup_1 _ _ _ _ Hcards Hk) as [Hidx _].
    destruct (negb (cb_checked c)).
    - destruct (CONFIG.MAX_COMPARE_ITEMS <=? _); [exact Hcmp |].
      cbn. now apply in_bounds_add.
    - cbn. now apply in_bounds_delete. }
  destruct e; try exact (Hcb _); try (cbn; constructor);
    match goal with
    | |- Forall _ (compareIndices (state (step w ?ev))) =>
        destruct (step_leaves_compare w ev) as (-> & _);
          [intros ?; discriminate | discriminate | exact Hcmp]
    end.
Qed.

Lemma cart_within_step w e :
  cards_within_catalog w ->
  Forall (in_bounds (state w)) (cartIndices (state w)) ->
  Forall (in_bounds (state (step w e))) (cartIndices (state (step w e))).
Proof.
  intros Hcards Hcart. unfold in_bounds in *. rewrite catalogItems_step.
  assert (Hbtn : forall k,
             Forall (fun idx => 0 <= idx < Z.of_nat (length (catalogItems (state w))))
                    (cartIndices (state (toggleCartItem k w)))).
  { intros k. rewrite state_toggleCartItem.
    destruct (gallery (dom w) !! k) as [c |] eqn:Hk; [| exact Hcart].
    destruct (Forall_lookup_1 _ _ _ _ Hcards Hk) as [_ Hidx].
    cbn. destruct (Set_has _ _); cbn;
      [now apply in_bounds_delete | now apply in_bounds_add]. }
  destruct e; try exact (Hbtn _); try (cbn; constructor);
    match goal with
    | |- Forall _ (cartIndices (state (step w ?ev))) =>
        destruct (step_leaves_cart w ev) as (-> & _ & _);
          [intros ?; discriminate | discriminate | exact Hcart]
    end.
Qed.

(** The world the start-up produces, spelled out. *)
Lemma initializeApplication_world (document : option (list ref)) (h : Heap)
    (page : Dom) (storage : gmap string string) (w0 : World) :
  initializeApplication (Parsed document) h page storage = Some w0 ->
  w0 = renderGalleryGrid
         (updateCartBadge
            (mkWorld (mkState (default [] document) []
                        (restore_cart (storage !! "catalog-cart")) "all")
               h page storage [])).
Proof. cbn. now intros [= <-]. Qed.

End SessionInvariants.

(** ** Effects *)

Section Effects.

Implicit Types (w : World) (e : Event) (k : nat).

(** What one event adds to the trace: nothing, the capacity warning (on a
    tick that finds the compare set full, which leaves the state alone), a
    write of the cart record, or its removal. *)
Lemma step_trace w e :
  trace (step w e) = trace w \/
  (trace (step w e) = (trace w ++ [Alert capacity_message])%list /\
   CONFIG.MAX_COMPARE_ITEMS <= Set_size (compareIndices (state w)) /\
   state (step w e) = state w /\
   exists k, e = ChangeCompareCheckbox k) \/
  (exists v, trace (step w e) = (trace w ++ [SetItem "catalog-cart" v])%list /\
             exists k, e = ClickCartButton k) \/
  (trace (step w e) = (trace w ++ [RemoveItem "catalog-cart"])%list /\
   e = ClickClearCart).
Proof.
  destruct e; cbn [step].
  - destruct (gallery (dom w) !! k) as [card |] eqn:Hk.
    + destruct (cb_checked card) eqn:Hc.
      * left. now destruct (untick_spec k w card Hk Hc) as (_ & _ & ->).
      * destruct (Z.le_gt_cases CONFIG.MAX_COMPARE_ITEMS
                    (Set_size (compareIndices (state w)))) as [Hfull | Hroom].
        -- right. left.
           destruct (tick_refused_spec k w card Hk Hc Hfull) as (Hst & _ & Htr).
           repeat split; eauto.
        -- left. now destruct (tick_spec k w card Hk Hc Hroom) as (_ & _ & ->).
    + left. unfold handleGalleryInteractions, toggleComparisonItem.
      rewrite gallery_user_flips_checkbox, list_lookup_alter_eq, Hk.
      reflexivity.
  - destruct (gallery (dom w) !! k) as [card |] eqn:Hk.
    + right. right. left.
      destruct (toggleCartItem_spec k w card Hk) as (_ & _ & _ & Htr).
      eauto.
    + left. unfold toggleCartItem. now rewrite Hk.
  - left. now destruct button.
  - left. unfold openComparisonModal. now destruct (comparison_items _ _).
  - now left.
  - now left.
  - left. unfold openCartModal. destruct (Set_size _ =? 0); [reflexivity |].
    now destruct (deref_all _ _).
  - now left.
  - right. right. right. now split.
Qed.

Lemma run_trace w (es : list Event) :
  exists t, trace (run w es) = (trace w ++ t)%list /\
            Forall effect_on_cart_key t.
Proof.
  revert w. induction es as [| e es IH]; intros w.
  - exists []. split; [now rewrite app_nil_r | constructor].
  - rewrite run_cons. destruct (IH (step w e)) as (t & Ht & Hall).
    destruct (step_trace w e)
      as [H | [(H & _) | [(v & H & _) | (H & _)]]]; rewrite H in Ht.
    + now exists t.
    + exists (Alert capacity_message :: t).
      split; [now rewrite Ht, <- app_assoc | now constructor].
    + exists (SetItem "catalog-cart" v :: t).
      split; [now rewrite Ht, <- app_assoc | now constructor].
    + exists (RemoveItem "catalog-cart" :: t).
      split; [now rewrite Ht, <- app_assoc | now constructor].
Qed.

(** X3. Whatever the user does, the handlers read and write
    [localStorage] under the key [catalog-cart] only: every other key keeps
    its value, and every storage effect of the session is a write or a
    removal of that record. *)
Theorem only_the_cart_record_is_written (w : World) (es : list Event)
    (key : string) :
  key <> "catalog-cart" ->
  localStorage (run w es) !! key = localStorage w !! key /\
  exists t, trace (run w es) = (trace w ++ t)%list /\
            Forall effect_on_cart_key t.
Proof.
  intros Hkey. split; [now apply run_other_keys | apply run_trace].
Qed.

Lemma only_the_cart_record_is_written_example :
  let w := Scenario.loaded {["catalog-theme" := "neon"]} in
  let es := [ClickCartButton 0; ChangeCompareCheckbox 1; ClickClearCart] in
  localStorage (run w es) !! "catalog-theme"
  = localStorage w !! "catalog-theme" /\
  exists t, trace (run w es) = (trace w ++ t)%list /\
            Forall effect_on_cart_key t.
Proof.
  apply (only_the_cart_record_is_written
           (Scenario.loaded {["catalog-theme" := "neon"]})
           [ClickCartButton 0; ChangeCompareCheckbox 1; ClickClearCart]
           "catalog-theme").
  discriminate.
Defined.

(** X14. The capacity warning is raised by nothing but a tick on a compare
    checkbox that finds the compare set full, and the event that raises it
    leaves the state object as it was. *)
Theorem warning_only_when_full (w : World) (e : Event) (message : string) :
  trace (step w e) = (trace w ++ [Alert message])%list ->
  message = capacity_message /\
  CONFIG.MAX_COMPARE_ITEMS <= Set_size (compareIndices (state w)) /\
  state (step w e) = state w /\
  exists k, e = ChangeCompareCheckbox k.
Proof.
  intros Htr.
  destruct (step_trace w e)
    as [H | [(H & Hfull & Hst & Hk) | [(v & H & _) | (H & _)]]];
    rewrite H in Htr.
  - exfalso. apply (f_equal length) in Htr. rewrite length_app in Htr.
    cbn in Htr. lia.
  - apply app_inv_head in Htr. injection Htr as <-. auto.
  - apply app_inv_head in Htr. discriminate.
  - apply app_inv_head in Htr. discriminate.
Qed.

Lemma warning_only_when_full_example :
  capacity_message = capacity_message /\
  CONFIG.MAX_COMPARE_ITEMS
  <= Set_size (compareIndices (state Scenario.full)) /\
  state (step Scenario.full (ChangeCompareCheckbox 3)) = state Scenario.full /\
  exists k, ChangeCompareCheckbox 3 = ChangeCompareCheckbox k.
Proof.
  apply (warning_only_when_full Scenario.full (ChangeCompareCheckbox 3)
           capacity_message).
  vm_compute. reflexivity.
Defined.

End Effects.

(** ** Sessions, from the start-up on *)

Section Sessions.

Implicit Types (w : World) (e : Event) (k : nat).

(** X1. In a session over a catalogue of pairwise distinct objects, after
    any events, no two cards of the gallery carry the same identity and
    every card shows the state of its identity: the checkbox is ticked and
    the card has the class [selected] exactly when the identity is in the
    compare set, the cart button has the class [in-cart] and the label
    "Remove from Cart" exactly when it is in the cart. The handlers that
    patch single cards thus agree with what a full render would show. *)
Theorem session_cards_show_membership (document : option (list ref))
    (h : Heap) (page : Dom) (storage : gmap string string) (w0 : World)
    (es : list Event) :
  NoDup (default [] document) ->
  initializeApplication (Parsed document) h page storage = Some w0 ->
  let w := run w0 es in
  NoDup (rendered_identities w) /\
  Forall (fun c =>
            cb_checked c = Set_has (cb_data_index c) (compareIndices (state w)) /\
            card_selected c = Set_has (cb_data_index c) (compareIndices (state w)) /\
            btn_data_index c = cb_data_index c /\
            btn_in_cart c = Set_has (cb_data_index c) (cartIndices (state w)) /\
            btn_textContent c
            = (if Set_has (cb_data_index c) (cartIndices (state w))
               then "Remove from Cart" else "Add to Cart"))
         (gallery (dom w)).
Proof.
  intros Hnd Hinit w.
  destruct (session_is_consistent document h page storage w0 es Hnd Hinit)
    as [_ _ _ _ _ Hdist _ Hsync].
  split; [exact Hdist |].
  eapply Forall_impl; [exact Hsync |].
  intros c (C1 & C2 & C3 & C4 & C5). rewrite C3 in C4.
  repeat split; try assumption.
  rewrite C5, C4. reflexivity.
Qed.

Lemma session_cards_show_membership_example :
  let w := run (Scenario.loaded ∅)
             [ChangeCompareCheckbox 0; ClickCartButton 2;
              ClickFilter (Some "sofa"); ChangeCompareCheckbox 0] in
  NoDup (rendered_identities w) /\
  Forall (fun c =>
            cb_checked c = Set_has (cb_data_index c) (compareIndices (state w)) /\
            card_selected c = Set_has (cb_data_index c) (compareIndices (state w)) /\
            btn_data_index c = cb_data_index c /\
            btn_in_cart c = Set_has (cb_data_index c) (cartIndices (state w)) /\
            btn_textContent c
            = (if Set_has (cb_data_index c) (cartIndices (state w))
               then "Remove from Cart" else "Add to Cart"))
         (gallery (dom w)).
Proof.
  apply (session_cards_show_membership (Some Scenario.catalog)
           Scenario.objects Scenario.page ∅ (Scenario.loaded ∅)).
  - exact NoDup_catalog.
  - vm_compute. reflexivity.
Defined.

(** X2. In a session that starts on a storage without a cart record, or
    with one this program wrote (the JSON text of an array of integers that
    JavaScript holds exactly), at every moment and whatever the catalogue,
    the record under [catalog-cart] is one from which the loader restores
    exactly the current cart: a session started on the storage as it is now
    begins with the cart as it is now. *)
Theorem persisted_cart_tracks_cart (document : option (list ref)) (h : Heap)
    (page : Dom) (storage : gmap string string) (w0 : World)
    (es : list Event) :
  program_written (storage !! "catalog-cart") ->
  initializeApplication (Parsed document) h page storage = Some w0 ->
  let w := run w0 es in
  restore_cart (localStorage w !! "catalog-cart") = cartIndices (state w) /\
  forall (document' : option (list ref)) (h' : Heap) (page' : Dom),
    exists w1,
      initializeApplication (Parsed document') h' page' (localStorage w)
      = Some w1 /\
      cartIndices (state w1) = cartIndices (state w).
Proof.
  intros _ Hinit w.
  apply initializeApplication_world in Hinit.
  assert (Hinv : NoDup (cartIndices (state w)) /\ cart_is_persisted w).
  { subst w. apply (run_invariant
      (fun w => NoDup (cartIndices (state w)) /\ cart_is_persisted w)).
    - intros w1 e [Hnd Hp]. split;
        [now apply cart_NoDup_step | now apply cart_is_persisted_step].
    - subst w0. split; [apply restore_cart_NoDup | reflexivity]. }
  destruct Hinv as [_ Hp]. split; [exact Hp |].
  intros document' h' page'. eexists. split; [reflexivity |]. exact Hp.
Qed.

Lemma persisted_cart_tracks_cart_example :
  let w := run (Scenario.loaded {["catalog-cart" := "[2,2,0]"]})
             [ClickCartButton 1; ClickCartButton 2] in
  restore_cart (localStorage w !! "catalog-cart") = cartIndices (state w) /\
  forall (document' : option (list ref)) (h' : Heap) (page' : Dom),
    exists w1,
      initializeApplication (Parsed document') h' page' (localStorage w)
      = Some w1 /\
      cartIndices (state w1) = cartIndices (state w).
Proof.
  apply (persisted_cart_tracks_cart (Some Scenario.catalog)
           Scenario.objects Scenario.page {["catalog-cart" := "[2,2,0]"]}
           (Scenario.loaded {["catalog-cart" := "[2,2,0]"]})).
  - right. exists [2; 2; 0]. split.
    + repeat constructor.
    + vm_compute. reflexivity.
  - vm_compute. reflexivity.
Defined.

(** X4. At every moment of a session the cart badge reads the number of
    identities in the cart and is hidden exactly when the cart is empty. *)
Theorem cart_badge_tracks_cart (document : option (list ref)) (h : Heap)
    (page : Dom) (storage : gmap string string) (w0 : World)
    (es : list Event) :
  initializeApplication (Parsed document) h page storage = Some w0 ->
  let w := run w0 es in
  badge_textContent (cart_badge (dom w))
  = Number_toString (Z.of_nat (length (cartIndices (state w)))) /\
  (badge_hidden (cart_badge (dom w)) = true <-> cartIndices (state w) = []).
Proof.
  intros Hinit w. apply initializeApplication_world in Hinit.
  assert (Hinv : cart_badge_reflects w).
  { subst w. apply (run_invariant cart_badge_reflects).
    - intros w1 e. apply cart_badge_step.
    - subst w0. apply (updateCartBadge_reflects _). }
  unfold cart_badge_reflects in Hinv. rewrite Hinv. cbn.
  split; [reflexivity | apply bool_decide_eq_true].
Qed.

Lemma cart_badge_tracks_cart_example :
  let w := run (Scenario.loaded {["catalog-cart" := "[2]"]})
             [ClickCartButton 1; ClickFilter (Some "sofa")] in
  badge_textContent (cart_badge (dom w))
  = Number_toString (Z.of_nat (length (cartIndices (state w)))) /\
  (badge_hidden (cart_badge (dom w)) = true <-> cartIndices (state w) = []).
Proof.
  apply (cart_badge_tracks_cart (Some Scenario.catalog)
           Scenario.objects Scenario.page {["catalog-cart" := "[2]"]}
           (Scenario.loaded {["catalog-cart" := "[2]"]})).
  vm_compute. reflexivity.
Defined.

(** X5. On a page whose floating bar starts hidden, at every moment of a
    session the bar is hidden when the compare set is empty, and otherwise
    visible with the label "n of 3 selected" for the n identities of the
    set and with the compare button disabled exactly when n is below 2. *)
Theorem compare_bar_tracks_compare_set (document : option (list ref))
    (h : Heap) (page : Dom) (storage : gmap string string) (w0 : World)
    (es : list Event) :
  bar_hidden (compare_bar page) = true ->
  initializeApplication (Parsed document) h page storage = Some w0 ->
  let w := run w0 es in
  let n := Z.of_nat (length (compareIndices (state w))) in
  (n = 0 -> bar_hidden (compare_bar (dom w)) = true) /\
  (n <> 0 ->
   compare_bar (dom w)
   = mkCompareBar false (Number_toString n ++ " of 3 selected") (n <? 2)).
Proof.
  intros Hpage Hinit w n. apply initializeApplication_world in Hinit.
  assert (Hinv : compare_bar_reflects w).
  { subst w. apply (run_invariant compare_bar_reflects).
    - intros w1 e. apply compare_bar_step.
    - subst w0. exact Hpage. }
  unfold compare_bar_reflects in Hinv. cbv zeta in Hinv.
  fold (Set_size (compareIndices (state w))) in n. fold n in Hinv.
  destruct (decide (n = 0)); split; intros; congruence.
Qed.

Lemma compare_bar_tracks_compare_set_example :
  let w := run (Scenario.loaded ∅)
             [ChangeCompareCheckbox 0; ChangeCompareCheckbox 2;
              ChangeCompareCheckbox 0] in
  let n := Z.of_nat (length (compareIndices (state w))) in
  (n = 0 -> bar_hidden (compare_bar (dom w)) = true) /\
  (n <> 0 ->
   compare_bar (dom w)
   = mkCompareBar false (Number_toString n ++ " of 3 selected") (n <? 2)).
Proof.
  apply (compare_bar_tracks_compare_set (Some Scenario.catalog)
           Scenario.objects Scenario.page ∅ (Scenario.loaded ∅)).
  - reflexivity.
  - vm_compute. reflexivity.
Defined.

End Sessions.

(** ** The two modal views *)

Section Modals.

Implicit Types (w : World) (e : Event) (k : nat).

(** Reading the objects at a list of identities fails exactly when one of
    the identities is not a position of the catalogue. *)
Lemma deref_all_is_Some (h : Heap) (catalog : list ref) (ids : list Z) :
  is_Some (deref_all h ((fun idx => Array_get catalog idx) <$> ids)) <->
  Forall (fun idx => 0 <= idx < Z.of_nat (length catalog)) ids.
Proof.
  split.
  - intros Hsome. unfold deref_all in Hsome.
    apply mapM_is_Some_1 in Hsome. rewrite Forall_fmap in Hsome.
    eapply Forall_impl; [exact Hsome |]. intros idx. cbn.
    unfold Array_get. destruct (Z.ltb_spec idx 0) as [Hneg | Hpos].
    + intros [x Hx]. discriminate.
    + intros [x Hx]. destruct (catalog !! Z.to_nat idx) as [r |] eqn:Hr;
        [| discriminate].
      apply lookup_lt_Some in Hr. lia.
  - intros Hall. destruct (deref_in_bounds h catalog ids Hall) as (items & -> & _).
    now exists items.
Qed.

(** X6. In a session, whatever the catalogue (one object may even sit at
    several positions) and whatever the events so far, opening the
    comparison view never fails: every identity of the compare set is a
    position of the catalogue, so the handler finds an object for each
    column, shows the modal and leaves the state as it is. *)
Theorem comparison_modal_always_opens (document : option (list ref))
    (h : Heap) (page : Dom) (storage : gmap string string) (w0 : World)
    (es : list Event) :
  initializeApplication (Parsed document) h page storage = Some w0 ->
  let w := run w0 es in
  Forall (in_bounds (state w)) (compareIndices (state w)) /\
  exists w', openComparisonModal w = Some w' /\
             compare_modal_hidden (dom w') = false /\
             state w' = state w.
Proof.
  intros Hinit w. apply initializeApplication_world in Hinit.
  assert (Hinv : cards_within_catalog w /\
                 Forall (in_bounds (state w)) (compareIndices (state w))).
  { subst w. apply (run_invariant
      (fun w => cards_within_catalog w /\
                Forall (in_bounds (state w)) (compareIndices (state w)))).
    - intros w1 e [Hc Hb]. split;
        [now apply cards_within_step | now apply compare_within_step].
    - subst w0. split; [apply rendered_cards_within | constructor]. }
  destruct Hinv as [_ Hb]. split; [exact Hb |].
  destruct (deref_in_bounds (heap w) _ _ Hb) as (items & Hitems & _).
  unfold openComparisonModal, comparison_items, Array_from.
  rewrite Hitems. eexists. repeat split.
Qed.

Lemma comparison_modal_always_opens_example :
  let w := run Scenario.aliased
             [ChangeCompareCheckbox 1; ChangeCompareCheckbox 0] in
  Forall (in_bounds (state w)) (compareIndices (state w)) /\
  exists w', openComparisonModal w = Some w' /\
             compare_modal_hidden (dom w') = false /\
             state w' = state w.
Proof.
  apply (comparison_modal_always_opens (Some [0; 0]%nat)
           Scenario.objects Scenario.page ∅ Scenario.aliased).
  vm_compute. reflexivity.
Defined.

Lemma openCartModal_is_Some w :
  is_Some (openCartModal w) <->
  Forall (in_bounds (state w)) (cartIndices (state w)).
Proof.
  unfold openCartModal, Array_from.
  destruct (Z.eqb_spec (Set_size (cartIndices (state w))) 0) as [Hz | Hnz].
  - split; [| now eexists]. intros _.
    destruct (cartIndices (state w)); [constructor | discriminate].
  - change (Forall (in_bounds (state w)) (cartIndices (state w)))
      with (Forall (fun idx => 0 <= idx
                               < Z.of_nat (length (catalogItems (state w))))
                   (cartIndices (state w))).
    rewrite <- (deref_all_is_Some (heap w)).
    destruct (deref_all _ _); cbn; split; intros [x Hx];
      try discriminate; now eexists.
Qed.

(** X7. Opening the cart view succeeds exactly when every identity of the
    cart is a position of the catalogue. With an identity outside it (a
    cart restored from a record written for a longer catalogue) the
    handler dies of a [TypeError] before it has written anything: the click
    changes nothing and the modal stays as it was. *)
Theorem cart_modal_opens_iff_within_catalog (w : World) :
  (is_Some (openCartModal w) <->
   Forall (in_bounds (state w)) (cartIndices (state w))) /\
  (openCartModal w = None -> step w ClickOpenCart = w).
Proof.
  split; [apply openCartModal_is_Some |].
  intros Hnone. cbn. now rewrite Hnone.
Qed.

(** A stale cart record, run on the model: the badge counts the identity,
    the cart view does not open. *)
Example stale_cart_never_opens :
  cartIndices (state stale_cart_session) = [7] /\
  badge_textContent (cart_badge (dom stale_cart_session)) = "1" /\
  openCartModal stale_cart_session = None /\
  cart_modal_hidden (dom (step stale_cart_session ClickOpenCart)) = true.
Proof. vm_compute. repeat split. Qed.

(** X8. When every identity of a non-empty cart is a position of the
    catalogue, the cart view opens with one row per identity, in the
    insertion order of the cart, each with the image, name, price and link
    of the object at that position of the original collection; the state
    and the storage are not touched. (The text of the total is left out:
    the page adds floating-point numbers.) *)
Theorem cart_view_lists_the_cart (w : World) :
  cartIndices (state w) <> [] ->
  Forall (in_bounds (state w)) (cartIndices (state w)) ->
  exists (items : list Item) (w' : World),
    openCartModal w = Some w' /\
    Forall2 (fun idx item =>
               exists r : ref,
                 catalogItems (state w) !! Z.to_nat idx = Some r /\
                 item = heap w r)
            (cartIndices (state w)) items /\
    cart_container (dom w')
    = CartRows ((fun item => mkCartRow (main_image_url item)
                               (product_name item) (price item) (url item))
                  <$> items) /\
    length items = length (cartIndices (state w)) /\
    cart_modal_hidden (dom w') = false /\
    state w' = state w /\
    localStorage w' = localStorage w.
Proof.
  intros Hne Hb.
  destruct (deref_in_bounds (heap w) _ _ Hb) as (items & Hitems & Hall).
  exists items. eexists. unfold openCartModal, Array_from.
  destruct (Z.eqb_spec (Set_size (cartIndices (state w))) 0) as [Hz | Hnz].
  { exfalso. apply Hne. destruct (cartIndices (state w)); [reflexivity | discriminate]. }
  rewrite Hitems. cbn. repeat split; [exact Hall |].
  symmetry. exact (Forall2_length _ _ _ Hall).
Qed.

Lemma cart_view_lists_the_cart_example :
  let w := run (Scenario.loaded ∅) [ClickCartButton 2; ClickCartButton 0] in
  exists (items : list Item) (w' : World),
    openCartModal w = Some w' /\
    Forall2 (fun idx item =>
               exists r : ref,
                 catalogItems (state w) !! Z.to_nat idx = Some r /\
                 item = heap w r)
            (cartIndices (state w)) items /\
    cart_container (dom w')
    = CartRows ((fun item => mkCartRow (main_image_url item)
                               (product_name item) (price item) (url item))
                  <$> items) /\
    length items = length (cartIndices (state w)) /\
    cart_modal_hidden (dom w') = false /\
    state w' = state w /\
    localStorage w' = localStorage w.
Proof.
  apply (cart_view_lists_the_cart
           (run (Scenario.loaded ∅) [ClickCartButton 2; ClickCartButton 0])).
  - vm_compute. discriminate.
  - vm_compute. repeat constructor; discriminate.
Defined.

(** The cart view of that session, as text. *)
Example cart_view_scenario :
  let w := run (Scenario.loaded ∅) [ClickCartButton 2; ClickCartButton 0] in
  (cart_container ∘ dom <$> openCartModal w)
  = Some (CartRows [mkCartRow "c.jpg" "C" "$300" "https://example.com/c";
                    mkCartRow "a.jpg" "A" "$1000" "https://example.com/a"]) /\
  (cart_total_price ∘ dom <$> openCartModal w) = Some "$1,300.00".
Proof. vm_compute. split; reflexivity. Qed.

(** X9. In a session that starts on a storage without a cart record, or
    with one this program wrote, when the cart the loader restores from it
    holds only positions of the catalogue (as it does when nothing was
    persisted), the cart does so for the whole session, and opening the
    cart view never fails. *)
Theorem cart_modal_opens_in_session (document : option (list ref))
    (h : Heap) (page : Dom) (storage : gmap string string) (w0 : World)
    (es : list Event) :
  program_written (storage !! "catalog-cart") ->
  Forall (fun idx => 0 <= idx < Z.of_nat (length (default [] document)))
         (restore_cart (storage !! "catalog-cart")) ->
  initializeApplication (Parsed document) h page storage = Some w0 ->
  let w := run w0 es in
  Forall (in_bounds (state w)) (cartIndices (state w)) /\
  is_Some (openCartModal w).
Proof.
  intros _ Hrestored Hinit w. apply initializeApplication_world in Hinit.
  assert (Hinv : cards_within_catalog w /\
                 Forall (in_bounds (state w)) (cartIndices (state w))).
  { subst w. apply (run_invariant
      (fun w => cards_within_catalog w /\
                Forall (in_bounds (state w)) (cartIndices (state w)))).
    - intros w1 e [Hc Hb]. split;
        [now apply cards_within_step | now apply cart_within_step].
    - subst w0. split; [apply rendered_cards_within | exact Hrestored]. }
  destruct Hinv as [_ Hb]. split; [exact Hb |].
  now apply openCartModal_is_Some.
Qed.

Lemma cart_modal_opens_in_session_example :
  let w := run (Scenario.loaded {["catalog-cart" := "[1]"]})
             [ClickCartButton 2; ClickFilter (Some "chair"); ClickCartButton 0] in
  Forall (in_bounds (state w)) (cartIndices (state w)) /\
  is_Some (openCartModal w).
Proof.
  apply (cart_modal_opens_in_session (Some Scenario.catalog)
           Scenario.objects Scenario.page {["catalog-cart" := "[1]"]}
           (Scenario.loaded {["catalog-cart" := "[1]"]})).
  - right. exists [1]. split.
    + repeat constructor.
    + vm_compute. reflexivity.
  - vm_compute. repeat constructor; discriminate.
  - vm_compute. reflexivity.
Defined.

End Modals.

(** ** The loader, the filter and the total, once more *)

Section Further.

Implicit Types (w : World) (e : Event) (k : nat).

Lemma elem_of_Set_new_from (a acc : list Z) (x : Z) :
  x ∈ fold_left (fun s y => Set_add y s) a acc <-> x ∈ acc \/ x ∈ a.
Proof.
  revert acc. induction a as [| y a IH]; intros acc; cbn.
  - rewrite elem_of_nil. tauto.
  - rewrite IH, elem_of_Set_add, elem_of_cons. tauto.
Qed.

Lemma Set_new_from_skip (x : Z) (l acc : list Z) :
  x ∈ acc ->
  fold_left (fun s y => Set_add y s) l acc
  = fold_left (fun s y => Set_add y s) (filter (fun y => y <> x) l) acc.
Proof.
  revert acc. induction l as [| y l IH]; intros acc Hx; [reflexivity |].
  destruct (decide (y = x)) as [-> | Hne].
  - rewrite filter_cons_False by (intros H; now apply H).
    cbn [fold_left]. unfold Set_add at 2.
    rewrite (proj2 (Set_has_true x acc) Hx). now apply IH.
  - rewrite filter_cons_True by assumption. cbn [fold_left].
    apply IH. apply elem_of_Set_add. now right.
Qed.

Lemma Set_new_from_head (x : Z) (l acc : list Z) :
  Forall (fun y => y <> x) l ->
  fold_left (fun s y => Set_add y s) l (x :: acc)
  = x :: fold_left (fun s y => Set_add y s) l acc.
Proof.
  revert acc. induction l as [| y l IH]; intros acc Hl; [reflexivity |].
  apply Forall_cons in Hl as [Hy Hl]. cbn [fold_left].
  assert (Hadd : Set_add y (x :: acc) = x :: Set_add y acc).
  { unfold Set_add, Set_has.
    destruct (bool_decide (y ∈ acc)) eqn:E.
    - apply bool_decide_eq_true in E.
      rewrite bool_decide_eq_true_2 by (apply elem_of_cons; now right).
      reflexivity.
    - apply bool_decide_eq_false in E.
      rewrite bool_decide_eq_false_2; [reflexivity |].
      rewrite elem_of_cons. intros [? | ?]; contradiction. }
  rewrite Hadd. now apply IH.
Qed.

(** A record in the format the program writes that repeats identities is
    restored as a set: the cart holds every identity of the array once, in
    the order of first occurrence (the head of the array comes first,
    followed by what the rest gives once the later copies of the head are
    dropped). *)
Theorem restored_cart_is_a_set (a : list Z) (saved : option string) :
  restore_cart (Some (JSON_stringify a)) = Set_new a /\
  NoDup (Set_new a) /\
  (forall x, x ∈ Set_new a <-> x ∈ a) /\
  (forall x rest,
     Set_new (x :: rest) = x :: Set_new (filter (fun y => y <> x) rest)) /\
  NoDup (restore_cart saved).
Proof.
  split.
  { unfold restore_cart. rewrite JSON_parse_stringify.
    change (JSON_stringify a)
      with (String "[" (String.concat "," (Number_toString <$> a) ++ "]")).
    reflexivity. }
  split; [apply Set_new_is_NoDup |].
  split.
  { intros x. unfold Set_new. rewrite elem_of_Set_new_from, elem_of_nil. tauto. }
  split; [| apply restore_cart_NoDup].
  intros x rest. unfold Set_new. cbn [fold_left].
  change (Set_add x []) with [x].
  rewrite (Set_new_from_skip x rest [x])
    by (apply list_elem_of_singleton; reflexivity).
  apply Set_new_from_head.
  apply Forall_forall. intros y Hy.
  now apply list_elem_of_filter in Hy as [Hy _].
Qed.

(** A record with repetitions, run on the model. *)
Example restored_cart_scenario :
  restore_cart (Some "[2,0,2,1,0]") = [2; 0; 1].
Proof. vm_compute. reflexivity. Qed.

Lemma filter_click_absorbs (button : option string) (g : string) w :
  handleCategoryFilterClick (Some g) (handleCategoryFilterClick button w)
  = handleCategoryFilterClick (Some g) w.
Proof. destruct button; reflexivity. Qed.

(** X11. A sequence of clicks in the filter bar leaves the world exactly as
    the last click that landed on a button would have left it on its own;
    clicks that missed every button count for nothing. A full re-render
    thus keeps no trace of the filters passed through. *)
Theorem filter_clicks_collapse (w : World) (buttons : list (option string)) :
  run w (ClickFilter <$> buttons)
  = match last_button buttons with
    | None => w
    | Some f => handleCategoryFilterClick (Some f) w
    end.
Proof.
  revert w. induction buttons as [| b buttons IH]; intros w; [reflexivity |].
  rewrite fmap_cons, run_cons, IH. cbn [step].
  unfold last_button. destruct b as [f0 |]; cbn [omap list_omap id].
  - fold (omap id buttons). rewrite last_cons.
    destruct (last (omap id buttons)) as [f |]; [| reflexivity].
    apply filter_click_absorbs.
  - fold (omap id buttons).
    now destruct (last (omap id buttons)).
Qed.

(** Three clicks, the second beside the buttons, run on the model. *)
Example filter_clicks_scenario :
  let w := Scenario.loaded ∅ in
  run w [ClickFilter (Some "chair"); ClickFilter None; ClickFilter (Some "sofa")]
  = run w [ClickFilter (Some "sofa")] /\
  rendered_identities (run w [ClickFilter (Some "chair"); ClickFilter None])
  = [1].
Proof. split; reflexivity. Qed.

End Further.

(** ** Reading prices *)

Section Prices.

(** The number an item adds to the total. *)
Local Abbreviation contribution item :=
  (match parseFloat (replace_non_numeric (price item)) with
   | None => 0%Q
   | Some x => x
   end).

Lemma span_digits_nonneg (s : string) : Forall (fun d => 0 <= d) (span_digits s).1.
Proof.
  induction s as [| c s IH]; [constructor |].
  cbn [span_digits]. destruct (is_digit c); [| constructor].
  destruct (span_digits s) as [ds rest]. cbn in *.
  constructor; [unfold digit_value; lia | exact IH].
Qed.

Lemma digits_to_Z_nonneg (ds : list Z) :
  Forall (fun d => 0 <= d) ds -> 0 <= digits_to_Z ds.
Proof.
  unfold digits_to_Z.
  assert (H : forall acc, 0 <= acc -> Forall (fun d => 0 <= d) ds ->
                          0 <= fold_left (fun acc d => 10 * acc + d) ds acc).
  { induction ds as [| d ds IH]; intros acc Hacc Hds; [exact Hacc |].
    apply Forall_cons in Hds as [Hd Hds]. cbn. apply IH; [lia | exact Hds]. }
  apply H. lia.
Qed.

Lemma decimal_value_nonneg (ip fp : list Z) :
  Forall (fun d => 0 <= d) ip -> Forall (fun d => 0 <= d) fp ->
  (0 <= decimal_value ip fp)%Q.
Proof.
  intros Hip Hfp. unfold decimal_value, Qle. cbn.
  pose proof (digits_to_Z_nonneg (ip ++ fp)) as H.
  rewrite Forall_app in H. specialize (H (conj Hip Hfp)). lia.
Qed.

Lemma parseFloat_nonneg (s : string) (x : Q) :
  parseFloat s = Some x -> (0 <= x)%Q.
Proof.
  unfold parseFloat.
  pose proof (span_digits_nonneg s) as Hip.
  destruct (span_digits s) as [ip rest]. cbn in Hip.
  assert (Hplain : match ip with
                   | [] => None
                   | _ :: _ => Some (decimal_value ip [])
                   end = Some x -> (0 <= x)%Q).
  { destruct ip; [discriminate |]. intros [= <-].
    apply decimal_value_nonneg; [exact Hip | constructor]. }
  destruct rest as [| c rest']; [exact Hplain |].
  destruct (Ascii.eqb_spec c ".") as [-> | Hc].
  - pose proof (span_digits_nonneg rest') as Hfp.
    destruct (span_digits rest') as [fp rest'']. cbn in Hfp.
    destruct ip as [| d ip]; [destruct fp as [| d fp]; [discriminate |] |];
      intros [= <-]; now apply decimal_value_nonneg.
  - destruct c as [[|] [|] [|] [|] [|] [|] [|] [|]];
      try exact Hplain; now destruct Hc.
Qed.

(** A text without a digit is read as no number. *)
Lemma parseFloat_digitless (p : string) :
  string_forall (fun c => negb (is_digit c)) p = true ->
  parseFloat (replace_non_numeric p) = None.
Proof.
  intros Hp.
  assert (Hdots : string_forall (fun c => Ascii.eqb c ".")
                    (replace_non_numeric p) = true).
  { induction p as [| c p IH]; [reflexivity |].
    cbn in Hp. apply andb_true_iff in Hp as [Hc Hp].
    apply negb_true_iff in Hc. cbn [replace_non_numeric]. rewrite Hc. cbn.
    unfold is_dot. destruct (Ascii.eqb c ".") eqn:E; [| now apply IH].
    cbn. now rewrite E, IH. }
  assert (Hspan : forall s, string_forall (fun c => Ascii.eqb c ".") s = true ->
                            span_digits s = ([], s)).
  { intros [| c s]; [reflexivity |]. cbn. intros H.
    apply andb_true_iff in H as [Hc _]. apply Ascii.eqb_eq in Hc. now subst c. }
  unfold parseFloat. rewrite (Hspan _ Hdots).
  destruct (replace_non_numeric p) as [| c s]; [reflexivity |].
  cbn in Hdots. apply andb_true_iff in Hdots as [Hc Hs].
  apply Ascii.eqb_eq in Hc. subst c. now rewrite (Hspan _ Hs).
Qed.

Lemma total_from (items : list Item) (init : Q) :
  (fold_left (fun sum item => sum + contribution item) items init
   == init + cart_total items)%Q.
Proof.
  unfold cart_total, Array_reduce. revert init.
  induction items as [| item items IH]; intros init; cbn [fold_left].
  - ring.
  - rewrite IH, (IH (0 + _)%Q). ring.
Qed.

Lemma cart_total_app (xs ys : list Item) :
  (cart_total (xs ++ ys) == cart_total xs + cart_total ys)%Q.
Proof.
  unfold cart_total at 1, Array_reduce. rewrite fold_left_app.
  fold (Array_reduce (fun sum item => (sum + contribution item)%Q) 0%Q xs).
  fold (cart_total xs). apply total_from.
Qed.

Lemma cart_total_cons (item : Item) (items : list Item) :
  (cart_total (item :: items) == contribution item + cart_total items)%Q.
Proof.
  unfold cart_total at 1, Array_reduce. cbn [fold_left].
  rewrite total_from. ring.
Qed.

(** X12. The cart total is built from what is left of each price once the
    characters other than digits and dots are gone: it is never negative
    (a minus sign in a price is dropped with the rest), and an item whose
    price holds no digit, wherever it stands in the cart, adds nothing to
    it. *)
Theorem cart_total_ignores_prices_without_digits (xs ys items : list Item)
    (item : Item) :
  string_forall (fun c => negb (is_digit c)) (price item) = true ->
  (cart_total (xs ++ item :: ys) == cart_total (xs ++ ys))%Q /\
  (0 <= cart_total items)%Q.
Proof.
  intros Hp. split.
  - rewrite !cart_total_app, cart_total_cons.
    rewrite (parseFloat_digitless _ Hp). ring.
  - induction items as [| i l IH]; [discriminate |].
    rewrite cart_total_cons.
    apply (Qle_trans _ (0 + 0)%Q); [discriminate |].
    apply Qplus_le_compat; [| exact IH].
    destruct (parseFloat _) as [x |] eqn:E; [| discriminate].
    exact (parseFloat_nonneg _ _ E).
Qed.

Lemma cart_total_ignores_prices_without_digits_example :
  (cart_total ([Scenario.priced "$1,399.00"]
                 ++ Scenario.priced "Price on request - call"
                 :: [Scenario.priced "-$20.50"])
   == cart_total ([Scenario.priced "$1,399.00"] ++ [Scenario.priced "-$20.50"]))%Q /\
  (0 <= cart_total [Scenario.priced "-$20.50"])%Q.
Proof.
  apply (cart_total_ignores_prices_without_digits
           [Scenario.priced "$1,399.00"] [Scenario.priced "-$20.50"]
           [Scenario.priced "-$20.50"]
           (Scenario.priced "Price on request - call")).
  vm_compute. reflexivity.
Defined.

(** That cart, as the modal would show its total. *)
Example cart_total_minus_sign :
  calculateCartTotal [Scenario.priced "$1,399.00";
                      Scenario.priced "Price on request - call";
                      Scenario.priced "-$20.50"] = "$1,419.50".
Proof. vm_compute. reflexivity. Qed.

End Prices.

(** ** The theme preference *)

Section Theme.

Lemma getItem_or_written (storage : gmap string string) (key t fallback : string) :
  storage !! key = Some t ->
  getItem_or storage key fallback = if decide (t = EmptyString) then fallback else t.
Proof.
  intros Hk. unfold getItem_or. rewrite Hk. now destruct t.
Qed.

(** X13. The theme the user picks is the theme the next start-up applies,
    whatever happens to the catalogue in between: picking an option of the
    selector sets it on the body and writes it under [catalog-theme]
    without touching the cart record or the state, no later event of the
    session changes that key, and a start-up on the resulting storage puts
    the same theme on the body and shows it in the selector when the
    selector has such an option. The one exception is an option whose value
    is the empty string, which the next start-up replaces by "dark", the
    theme it also applies when nothing was saved. *)
Theorem theme_preference_round_trip (p p' : ThemePage)
    (sel sel' : ThemeSelect) (w : World) (t : string) (es : list Event) :
  themeSelect p = Some sel ->
  t ∈ select_options sel ->
  themeSelect p' = Some sel' ->
  let p1 := (user_picks_theme t p w).1 in
  let w1 := (user_picks_theme t p w).2 in
  let restored := if decide (t = EmptyString) then "dark" else t in
  let next := setupThemeSelector (localStorage (run w1 es)) p' in
  body_dataset_theme p1 = Some t /\
  select_value <$> themeSelect p1 = Some t /\
  state w1 = state w /\
  localStorage w1 !! "catalog-cart" = localStorage w !! "catalog-cart" /\
  body_dataset_theme next = Some restored /\
  select_value <$> themeSelect next
  = Some (if bool_decide (restored ∈ select_options sel')
          then restored else EmptyString) /\
  (forall storage : gmap string string,
     storage !! "catalog-theme" = None ->
     body_dataset_theme (setupThemeSelector storage p') = Some "dark").
Proof.
  intros Hsel Ht Hsel' p1 w1 restored next.
  assert (Hpick : user_picks_theme t p w
                  = (mkThemePage (Some t) (Some (mkThemeSelect (select_options sel) t)),
                     localStorage_setItem "catalog-theme" t w)).
  { unfold user_picks_theme. rewrite Hsel.
    now rewrite bool_decide_eq_true_2 by assumption. }
  subst p1 w1 next. rewrite Hpick. cbn [fst snd].
  assert (Hsaved : getItem_or
                     (localStorage (run (localStorage_setItem "catalog-theme" t w) es))
                     "catalog-theme" "dark" = restored).
  { apply getItem_or_written.
    rewrite run_other_keys by discriminate. cbn. apply lookup_insert_eq. }
  repeat split.
  - cbn. now rewrite lookup_insert_ne.
  - unfold setupThemeSelector. rewrite Hsel'. cbn. now rewrite Hsaved.
  - unfold setupThemeSelector. rewrite Hsel'. cbn. now rewrite Hsaved.
  - intros storage Hnone. unfold setupThemeSelector, getItem_or.
    now rewrite Hsel', Hnone.
Qed.

Lemma theme_preference_round_trip_example :
  let p := example_theme_page in
  let w := Scenario.loaded {["catalog-cart" := "[1]"]} in
  let es := [ClickCartButton 0; ClickClearCart; ChangeCompareCheckbox 1] in
  let p1 := (user_picks_theme "neon" p w).1 in
  let w1 := (user_picks_theme "neon" p w).2 in
  let restored := if decide ("neon" = EmptyString) then "dark" else "neon" in
  let next := setupThemeSelector (localStorage (run w1 es)) p in
  body_dataset_theme p1 = Some "neon" /\
  select_value <$> themeSelect p1 = Some "neon" /\
  state w1 = state w /\
  localStorage w1 !! "catalog-cart" = localStorage w !! "catalog-cart" /\
  body_dataset_theme next = Some restored /\
  select_value <$> themeSelect next
  = Some (if bool_decide (restored ∈ ["dark"; "light"; "neon"])
          then restored else EmptyString) /\
  (forall storage : gmap string string,
     storage !! "catalog-theme" = None ->
     body_dataset_theme (setupThemeSelector storage p) = Some "dark").
Proof.
  apply (theme_preference_round_trip example_theme_page example_theme_page
           (mkThemeSelect ["dark"; "light"; "neon"] "dark")
           (mkThemeSelect ["dark"; "light"; "neon"] "dark")
           (Scenario.loaded {["catalog-cart" := "[1]"]}) "neon"
           [ClickCartButton 0; ClickClearCart; ChangeCompareCheckbox 1]).
  - reflexivity.
  - apply elem_of_cons. right. apply elem_of_cons. right.
    apply elem_of_cons. now left.
  - reflexivity.
Defined.

(** A page without the selector: the start-up leaves the body alone. *)
Example theme_without_selector :
  setupThemeSelector {["catalog-theme" := "neon"]} (mkThemePage None None)
  = mkThemePage None None /\
  body_dataset_theme
    (setupThemeSelector {["catalog-theme" := "neon"]} example_theme_page)
  = Some "neon" /\
  body_dataset_theme
    (setupThemeSelector {["catalog-theme" := "solarized"]} example_theme_page)
  = Some "solarized" /\
  (select_value <$> themeSelect
     (setupThemeSelector {["catalog-theme" := "solarized"]} example_theme_page))
  = Some EmptyString.
Proof. vm_compute. repeat split. Qed.

End Theme.
